(** * GCAM MAC curves and building demand calibration: a shallow embedding

    Embeds [GhgMAC] (objects/emissions/source/ghg_mac.cpp) and
    [BuildingHeatCoolDmdTechnology]
    (objects/technologies/source/building_heat_cool_dmd_technology.cpp).

    Numeric model.
    - A C++ [int] is a [Z]; [/] on two ints is the truncating quotient
      [Z.quot], and a zero divisor is undefined behaviour ([IntDivByZero]).
      Periods and years are far from the 32-bit limits, overflow is not
      modelled.
    - A C++ [double] is idealised as an exact rational in canonical form
      ([Qc], Leibniz equality, computable).  A division by [0.0] leaves the
      finite reals (IEEE gives an infinity or a NaN); the model stops there
      with [NotFinite] and says nothing about what the code does next.
    - [std::auto_ptr<Curve>] is an optional location in a store of curve
      objects; dereferencing a null or dangling pointer is [NullPointer]. *)

From Stdlib Require Import ZArith QArith Qcanon String List Lia Lqa.
From stdpp Require Import base decidable option numbers strings gmap.

Local Open Scope Qc_scope.

(** ** Doubles and ints *)

Abbreviation double := Qc.

(** Implicit conversion [int -> double]. *)
Definition of_int (z : Z) : double := Qc_of_Z z.

(** [DBL_MAX] of <cfloat> for IEEE binary64: (2^53 - 1) * 2^971. *)
Definition DBL_MAX : double := Qc_of_Z ((2 ^ 53 - 1) * 2 ^ 971).

(** [std::max(a, b)] is [(a < b) ? b : a]. *)
Definition dmax (a b : double) : double := if decide (a < b) then b else a.

(** [std::min(a, b)] is [(b < a) ? b : a]. *)
Definition dmin (a b : double) : double := if decide (b < a) then b else a.

(** [std::pow(double, int)] for the exponents the code uses (positive). *)
Definition pow (b : double) (e : Z) : double := b ^ Z.to_nat e.

(** ** Faults, results and the method monad *)

Inductive fault : Type :=
  | NullPointer
  | IntDivByZero
  | NotFinite.

Inductive result (A : Type) : Type :=
  | Ok (a : A)
  | Fault (f : fault).
Arguments Ok {A} a.
Arguments Fault {A} f.

(** The levels of [ILogger] the embedded files use. *)
Inductive Level : Type := WARNING | ERROR.

Definition LogEntry : Type := Level * string.

(** ** The curve abstraction

    [Curve] is an abstract class of the repository (util/curves); its
    implementation is not part of the embedded files.  An object of the
    class is the record of its query methods, so every statement below
    holds for any implementation of the interface. *)

Record Curve : Type := {
  getY : double -> double;
  getMinX : double;
  getMaxX : double;
  getSortedPairs : list (double * double)
}.

Definition loc : Type := positive.

(** The part of the process state the methods touch: the curve objects on
    the free store and the lines written to "main_log". *)
Record World : Type := {
  heap : gmap loc Curve;
  log : list LogEntry
}.

Definition M (A : Type) : Type := World -> result (A * World).

Definition ret {A} (a : A) : M A := fun w => Ok (a, w).

Definition bind {A B} (m : M A) (k : A -> M B) : M B :=
  fun w => match m w with
           | Ok (a, w') => k a w'
           | Fault f => Fault f
           end.

Definition fail {A} (f : fault) : M A := fun _ => Fault f.

Notation "x <- m ;; k" := (bind m (fun x => k))
  (at level 100, m at next level, right associativity).

(** [a / b] on doubles. *)
Definition ddiv (a b : double) : M double :=
  if decide (b = 0) then fail NotFinite else ret (a / b).

(** [a / b] on ints. *)
Definition idiv (a b : Z) : M Z :=
  if decide (b = 0%Z) then fail IntDivByZero else ret (Z.quot a b).

(** [mainLog.setLevel( lvl ); mainLog << msg << endl;] *)
Definition mainLog (lvl : Level) (msg : string) : M unit :=
  fun w => Ok (tt, {| heap := heap w; log := log w ++ [(lvl, msg)] |}).

(** [*p] for an [auto_ptr<Curve>]. *)
Definition deref (p : option loc) : M Curve :=
  fun w => match p with
           | None => Fault NullPointer
           | Some l => match heap w !! l with
                       | Some c => Ok (c, w)
                       | None => Fault NullPointer
                       end
           end.

(** [new]: a location the store does not use yet. *)
Definition alloc (c : Curve) : M loc :=
  fun w => let l := fresh (dom (heap w)) in
           Ok (l, {| heap := <[l := c]> (heap w); log := log w |}).

(** [auto_ptr::reset]: the object owned so far is deleted. *)
Definition auto_ptr_reset (old : option loc) : M unit :=
  fun w => match old with
           | None => Ok (tt, w)
           | Some l => Ok (tt, {| heap := delete l (heap w); log := log w |})
           end.

(** Modelled from the spec: [Curve::clone] is not among the embedded files;
    section 6 gives it as "[clone() -> Curve] (deep copy)": a new object
    with the same points and the same answers. *)
Definition Curve_clone (p : option loc) : M loc :=
  c <- deref p ;;
  alloc c.

(** ** Collaborators reached through the global [scenario] *)

Record Modeltime : Type := {
  getper_to_yr : Z -> Z;
  getBasePeriod : Z;
  getEndYear : Z
}.

(** [getPrice( goodName, regionName, period, aMustExist = true )]. *)
Record Marketplace : Type := {
  getPrice : string -> string -> Z -> bool -> double;
  NO_MARKET_PRICE : double
}.

Record Scenario : Type := {
  getModeltime : Modeltime;
  getMarketplace : Marketplace
}.

(** ** GhgMAC

    The class declaration is not part of the embedded files; the members
    and their types are those [XMLParse] and [toInputXML] read and write
    ([double] for [phaseIn], [fuelShiftRange], [costReductionRate] and
    [finalReduction], [int] for the two years).  [name] is written by
    [toInputXML] and left alone by [copy]. *)

Record GhgMAC : Type := {
  name : string;
  macCurve : option loc;
  phaseIn : double;
  fuelShiftRange : double;
  costReductionRate : double;
  baseCostYear : Z;
  finalReduction : double;
  finalReductionYear : Z;
  noBelowZero : bool;
  curveShiftFuelName : string
}.

Section GhgMAC_methods.

Variable scenario : Scenario.

(** Default constructor. *)
Definition GhgMAC_default : GhgMAC :=
  let modeltime := getModeltime scenario in
  {| name := "";
     macCurve := None;
     phaseIn := 1;
     finalReduction := 0;
     finalReductionYear := getEndYear modeltime;
     fuelShiftRange := 0;
     noBelowZero := false;
     baseCostYear := getper_to_yr modeltime (getBasePeriod modeltime);
     costReductionRate := 0;
     curveShiftFuelName := "" |}.

(** Copy helper function. *)
Definition copy (self other : GhgMAC) : M GhgMAC :=
  c <- Curve_clone (macCurve other) ;;
  _ <- auto_ptr_reset (macCurve self) ;;
  ret {| name := name self;
         macCurve := Some c;
         phaseIn := phaseIn other;
         fuelShiftRange := fuelShiftRange other;
         costReductionRate := costReductionRate other;
         baseCostYear := baseCostYear other;
         finalReduction := finalReduction other;
         finalReductionYear := finalReductionYear other;
         noBelowZero := noBelowZero other;
         curveShiftFuelName := curveShiftFuelName other |}.

(** Copy constructor: [copy( other )] on a new object, whose strings are
    empty and whose [auto_ptr] is null; [copy] overwrites the rest. *)
Definition GhgMAC_copy (other : GhgMAC) : M GhgMAC :=
  copy {| name := ""; macCurve := None; phaseIn := 0; fuelShiftRange := 0;
          costReductionRate := 0; baseCostYear := 0; finalReduction := 0;
          finalReductionYear := 0; noBelowZero := false;
          curveShiftFuelName := "" |} other.

(** [return new GhgMAC( *this );] *)
Definition clone (self : GhgMAC) : M GhgMAC := GhgMAC_copy self.

(** Perform error checking. *)
Definition initCalc (self : GhgMAC) (ghgName : string) : M unit :=
  curve <- deref (macCurve self) ;;
  if decide (getMaxX curve = - DBL_MAX)
  then mainLog ERROR (" MAC for gas " ++ ghgName ++ " appears to have no data. ")
  else ret tt.

(** Multiplier that phases in the MAC curve.  [period - 1] is converted to
    [double] and the division is a [double] division; the guard makes the
    divisor at least 1. *)
Definition adjustPhaseIn (self : GhgMAC) (period : Z) : double :=
  let mult := 1 in
  if decide (of_int (period - 1) < phaseIn self /\ 1 <= phaseIn self)
  then of_int (period - 1) / phaseIn self
  else mult.

(** Multiplier of the technological change.  [1 / ( finalReductionPeriod - 2 )]
    has two [int] operands. *)
Definition adjustTechCh (self : GhgMAC) (period finalReductionPeriod : Z)
    (maxReduction : double) : M double :=
  change <- ddiv maxReduction (finalReduction self) ;;
  if decide (period <= finalReductionPeriod)%Z
  then q <- idiv 1 (finalReductionPeriod - 2) ;;
       ret (change * of_int q * of_int (period - 2))
  else ret change.

(** Carbon price shifted by the natural gas price.  [3 / 5] and [1 / 2] have
    two [int] operands. *)
Definition shiftNatGas (self : GhgMAC) (period : Z) (regionName : string)
    (carbonPrice : double) : M double :=
  let marketplace := getMarketplace scenario in
  let natGasPrice :=
    getPrice marketplace (curveShiftFuelName self) regionName period true in
  let natGasBasePrice :=
    getPrice marketplace (curveShiftFuelName self) regionName 1 true in
  priceChangeRatio <- (if decide (natGasPrice <> 0)
                       then ddiv natGasBasePrice natGasPrice
                       else ret 1) ;;
  let NORM_FACTOR := of_int (Z.quot 3 5) in
  curve <- deref (macCurve self) ;;
  let minCarbonPrice := getMinX curve in
  let maxCarbonPrice := getMaxX curve in
  ratio <- ddiv (maxCarbonPrice - carbonPrice)
                (maxCarbonPrice - minCarbonPrice) ;;
  let convergenceFactor :=
    of_int (Z.quot 1 2) + of_int (Z.quot 1 2) * ratio in
  let newCarbonPrice :=
    carbonPrice
    + NORM_FACTOR * (1 - priceChangeRatio) * fuelShiftRange self
      * convergenceFactor in
  let newCarbonPrice := dmax newCarbonPrice minCarbonPrice in
  let newCarbonPrice := dmin newCarbonPrice maxCarbonPrice in
  ret newCarbonPrice.

(** Multiplier for the carbon price shifted due to technological change. *)
Definition shiftCostReduction (self : GhgMAC) (period : Z)
    (costReductionRate : double) : M double :=
  if decide (costReductionRate <> 0)
  then
    let modeltime := getModeltime scenario in
    let numberYears := (getper_to_yr modeltime period - baseCostYear self)%Z in
    if decide (0 < numberYears)%Z
    then ddiv 1 (pow (1 + costReductionRate) numberYears)
    else ret 1
  else ret 1.

(** Get mac curve value. *)
Definition getMACValue (self : GhgMAC) (carbonPrice : double) : M double :=
  curve <- deref (macCurve self) ;;
  let maxCO2Tax := getMaxX curve in
  let effectiveCarbonPrice := dmin carbonPrice maxCO2Tax in
  let reduction := getY curve effectiveCarbonPrice in
  if decide (reduction = - DBL_MAX)
  then _ <- mainLog ERROR
              " An error occured when evaluating MAC curve for a GHG." ;;
       ret 0
  else ret reduction.

(** Finds the reduction using the MAC curve. *)
Definition findReduction (self : GhgMAC) (regionName : string) (period : Z)
    : M double :=
  let marketplace := getMarketplace scenario in
  let effectiveCarbonPrice := getPrice marketplace "CO2" regionName period false in
  let effectiveCarbonPrice :=
    if decide (effectiveCarbonPrice = NO_MARKET_PRICE marketplace)
    then 0 else effectiveCarbonPrice in
  effectiveCarbonPrice <-
    (if decide (fuelShiftRange self <> 0)
     then shiftNatGas self period regionName effectiveCarbonPrice
     else ret effectiveCarbonPrice) ;;
  decay <- shiftCostReduction self period (costReductionRate self) ;;
  let effectiveCarbonPrice := effectiveCarbonPrice * decay in
  reduction <- getMACValue self effectiveCarbonPrice ;;
  let reduction :=
    if decide (noBelowZero self = true /\ effectiveCarbonPrice < 0)
    then 0 else reduction in
  curve <- deref (macCurve self) ;;
  let maxCO2Tax := getMaxX curve in
  maxReduction <- getMACValue self maxCO2Tax ;;
  let reduction := reduction * adjustPhaseIn self period in
  let modeltime := getModeltime scenario in
  let finalReductionPeriod := getper_to_yr modeltime (finalReductionYear self) in
  if decide (maxReduction < finalReduction self /\ (1 < finalReductionPeriod)%Z)
  then cap <- adjustTechCh self period finalReductionPeriod maxReduction ;;
       ret (reduction * cap)
  else ret reduction.

End GhgMAC_methods.

(** ** Concrete collaborators for worked examples *)

(** Modelled from the spec: [PointSetCurve] is not among the embedded files.
    Section 2 describes it as an ordered set of (x, y) points with a
    piecewise-linear [getY] that returns a sentinel on failure, and
    [initCalc] above reads [-DBL_MAX] as the [getMaxX] of a curve without
    data.  Outside the points the nearest segment is continued, which is
    what the clamp in [getMACValue] exists to avoid. *)
Fixpoint interpolate (pts : list (double * double)) (x : double) : double :=
  match pts with
  | [] => - DBL_MAX
  | (x1, y1) :: rest =>
      match rest with
      | [] => if decide (x = x1) then y1 else - DBL_MAX
      | (x2, y2) :: rest' =>
          match rest' with
          | [] => y1 + (y2 - y1) * ((x - x1) / (x2 - x1))
          | _ :: _ =>
              if decide (x <= x2)
              then y1 + (y2 - y1) * ((x - x1) / (x2 - x1))
              else interpolate rest x
          end
      end
  end.

Definition PointSetCurve (pts : list (double * double)) : Curve :=
  {| getY := interpolate pts;
     getMinX := foldr (fun p m => dmin p.1 m) DBL_MAX pts;
     getMaxX := foldr (fun p m => dmax p.1 m) (- DBL_MAX) pts;
     getSortedPairs := pts |}.

(** A calendar with period 0 in 1975 and 15-year steps; period 1 (1990) is
    the base period and period 8 (2095) the last one. *)
Definition calendar15 : Modeltime :=
  {| getper_to_yr := fun period => (1975 + 15 * period)%Z;
     getBasePeriod := 1;
     getEndYear := 2095 |}.

(** A market place that knows the prices of one fuel and of "CO2". *)
Definition market (fuel : string) (fuelPrice : Z -> double) (co2 : double)
    : Marketplace :=
  {| getPrice := fun good _ period _ =>
       if decide (good = "CO2") then co2
       else if decide (good = fuel) then fuelPrice period
       else - 1;
     NO_MARKET_PRICE := - 1 |}.

(** The curve of the scenarios of section 8 of the specification. *)
Definition curve8 : Curve :=
  PointSetCurve [(0, 0); (of_int 100, Q2Qc (1 # 2)); (of_int 200, Q2Qc (9 # 10))].

Definition world8 : World := {| heap := {[ 1%positive := curve8 ]}; log := [] |}.

Definition mac8 : GhgMAC :=
  {| name := "CH4"; macCurve := Some 1%positive; phaseIn := 1;
     fuelShiftRange := 0; costReductionRate := 0; baseCostYear := 1990;
     finalReduction := 0; finalReductionYear := 2095; noBelowZero := false;
     curveShiftFuelName := "" |}.

Definition scenario8 (co2 : double) : Scenario :=
  {| getModeltime := calendar15;
     getMarketplace := market "natural gas" (fun _ => 1) co2 |}.

(** ** BuildingHeatCoolDmdTechnology *)

Module Building.

(** [IInfo::getDouble( name, mustExist )]. *)
Record IInfo : Type := {
  getDouble : string -> bool -> double
}.

(** The members the embedded methods touch; [shrwts] is inherited. *)
Record BuildingHeatCoolDmdTechnology : Type := {
  shrwts : double;
  aveInsulation : double;
  floorToSurfaceArea : double;
  fractionOfYearActive : double;
  intGainsMarketName : string
}.

(** The virtual methods the heating and the cooling technology supply;
    their classes are not part of the embedded files. *)
Class HeatCoolVariant : Type := {
  getInternalGainsSign : double;
  getDemandFnPrefix : BuildingHeatCoolDmdTechnology -> string -> Z -> double
}.

Section Methods.

Variable scenario : Scenario.
Context `{variant : HeatCoolVariant}.

(** Effective internal gains as they affect the demand for this technology. *)
Definition getEffectiveInternalGains (self : BuildingHeatCoolDmdTechnology)
    (regionName : string) (period : Z) : double :=
  let marketplace := getMarketplace scenario in
  getInternalGainsSign
  * getPrice marketplace (intGainsMarketName self) regionName period true
  * fractionOfYearActive self.

(** Adjusts the share weight to be consistent with the calibration value. *)
Definition adjustForCalibration (self : BuildingHeatCoolDmdTechnology)
    (subSectorDemand : double) (regionName : string) (aSubsectorInfo : IInfo)
    (period : Z) : M BuildingHeatCoolDmdTechnology :=
  let unitDemand := subSectorDemand in
  let floorSpace := getDouble aSubsectorInfo "floorSpace" true in
  let effectiveDemand := unitDemand * floorSpace in
  let effectiveDemand :=
    effectiveDemand - getEffectiveInternalGains self regionName period in
  let effectiveDemand := dmax effectiveDemand 0 in
  perArea <- ddiv effectiveDemand floorSpace ;;
  weight <- ddiv perArea (getDemandFnPrefix self regionName period) ;;
  ret {| shrwts := weight;
         aveInsulation := aveInsulation self;
         floorToSurfaceArea := floorToSurfaceArea self;
         fractionOfYearActive := fractionOfYearActive self;
         intGainsMarketName := intGainsMarketName self |}.

End Methods.

(** A heating technology: internal gains lower the demand. *)
Definition heating : HeatCoolVariant :=
  {| getInternalGainsSign := 1;
     getDemandFnPrefix := fun self _ _ =>
       aveInsulation self * floorToSurfaceArea self |}.

Definition office_heating : BuildingHeatCoolDmdTechnology :=
  {| shrwts := 1; aveInsulation := of_int 2; floorToSurfaceArea := of_int 5;
     fractionOfYearActive := Q2Qc (1 # 2); intGainsMarketName := "internal gains" |}.

Definition office_info : IInfo :=
  {| getDouble := fun key _ =>
       if decide (key = "floorSpace") then of_int 100 else 0 |}.

(** Internal gains of 40 in every period. *)
Definition scenario_gains : Scenario :=
  {| getModeltime := calendar15;
     getMarketplace := market "internal gains" (fun _ => of_int 40) 0 |}.

End Building.

(** ** Further worked inputs *)

(** A curve phased in over three periods gives 0, 1/3, 2/3 and then 1. *)
Definition mac_phase3 : GhgMAC :=
  {| name := "CH4"; macCurve := Some 1%positive; phaseIn := of_int 3;
     fuelShiftRange := 0; costReductionRate := 0; baseCostYear := 1990;
     finalReduction := 0; finalReductionYear := 2095; noBelowZero := false;
     curveShiftFuelName := "" |}.

(** A curve that was given no point fails at every price. *)
Definition world_empty : World :=
  {| heap := {[ 1%positive := PointSetCurve [] ]}; log := [] |}.

(** Natural gas at 1 in the base period and at 2 afterwards; a shift range
    of 10 on the curve of section 8. *)
Definition scenario_gas (co2 : double) : Scenario :=
  {| getModeltime := calendar15;
     getMarketplace :=
       market "natural gas"
              (fun period => if decide (period = 1%Z) then 1 else of_int 2) co2 |}.

Definition mac_gas : GhgMAC :=
  {| name := "CH4"; macCurve := Some 1%positive; phaseIn := 1;
     fuelShiftRange := of_int 10; costReductionRate := 0; baseCostYear := 1990;
     finalReduction := 0; finalReductionYear := 2095; noBelowZero := false;
     curveShiftFuelName := "natural gas" |}.

Definition mac_cap : GhgMAC :=
  {| name := "CH4"; macCurve := Some 1%positive; phaseIn := 1;
     fuelShiftRange := 0; costReductionRate := 0; baseCostYear := 1990;
     finalReduction := 1; finalReductionYear := 1990; noBelowZero := false;
     curveShiftFuelName := "" |}.

(** ** The specification's formulas, for comparison *)

(** The adjusted price as section 4.2 of the specification words it, in
    exact arithmetic: [NORM_FACTOR] is 0.6 and the convergence factor
    starts from 0.5. *)
Definition adjustedPrice_spec (minX maxX basePrice currentPrice : double)
    (fuelShiftRange carbonPrice : double) : double :=
  let priceChangeRatio :=
    if decide (currentPrice <> 0) then basePrice / currentPrice else 1 in
  let convergenceFactor :=
    Q2Qc (1 # 2) + Q2Qc (1 # 2) * ((maxX - carbonPrice) / (maxX - minX)) in
  let adjustedPrice :=
    carbonPrice
    + Q2Qc (6 # 10) * (1 - priceChangeRatio) * fuelShiftRange
      * convergenceFactor in
  dmin (dmax adjustedPrice minX) maxX.

(** The multiplier as section 4.4 of the specification words it, read as
    exact real arithmetic. *)
Definition capMultiplier_spec (maxReduction finalReduction : double)
    (period finalReductionPeriod : Z) : double :=
  let change := maxReduction / finalReduction in
  change * (1 / of_int (finalReductionPeriod - 2)) * of_int (period - 2).

(** ** Vocabulary of the statements *)

(** [self] owns the live curve object [curve] in [w]. *)
Definition owns (w : World) (self : GhgMAC) (curve : Curve) : Prop :=
  exists l, macCurve self = Some l /\ heap w !! l = Some curve.

(** The message of [getMACValue]. *)
Definition macError : LogEntry :=
  (ERROR, " An error occured when evaluating MAC curve for a GHG."%string).

Definition logged (w : World) (e : LogEntry) : World :=
  {| heap := heap w; log := log w ++ [e] |}.

(** Years elapsed since [baseCostYear] at [period]. *)
Definition numberYears (scenario : Scenario) (self : GhgMAC) (period : Z) : Z :=
  (getper_to_yr (getModeltime scenario) period - baseCostYear self)%Z.

(** The steps of [findReduction] up to the phase-in: the reduction after
    phase-in, with the curve value at the largest x. *)
Definition reductionAfterPhaseIn (scenario : Scenario) (self : GhgMAC)
    (regionName : string) (period : Z) : M (double * double) :=
  let marketplace := getMarketplace scenario in
  let effectiveCarbonPrice := getPrice marketplace "CO2" regionName period false in
  let effectiveCarbonPrice :=
    if decide (effectiveCarbonPrice = NO_MARKET_PRICE marketplace)
    then 0 else effectiveCarbonPrice in
  effectiveCarbonPrice <-
    (if decide (fuelShiftRange self <> 0)
     then shiftNatGas scenario self period regionName effectiveCarbonPrice
     else ret effectiveCarbonPrice) ;;
  decay <- shiftCostReduction scenario self period (costReductionRate self) ;;
  let effectiveCarbonPrice := effectiveCarbonPrice * decay in
  reduction <- getMACValue self effectiveCarbonPrice ;;
  let reduction :=
    if decide (noBelowZero self = true /\ effectiveCarbonPrice < 0)
    then 0 else reduction in
  curve <- deref (macCurve self) ;;
  maxReduction <- getMACValue self (getMaxX curve) ;;
  ret (reduction * adjustPhaseIn self period, maxReduction).

(** The test the code makes before it applies the cap. *)
Definition capTest (scenario : Scenario) (self : GhgMAC) (maxReduction : double)
    : Prop :=
  maxReduction < finalReduction self /\
  (1 < getper_to_yr (getModeltime scenario) (finalReductionYear self))%Z.

(** What a caller sees of a run: the value and the log, or the fault. *)
Definition outcome {A} (r : result (A * World)) : result (A * list LogEntry) :=
  match r with
  | Ok (a, w) => Ok (a, log w)
  | Fault f => Fault f
  end.

(** The eight configuration fields agree. *)
Definition same_config (a b : GhgMAC) : Prop :=
  phaseIn a = phaseIn b /\
  fuelShiftRange a = fuelShiftRange b /\
  costReductionRate a = costReductionRate b /\
  baseCostYear a = baseCostYear b /\
  finalReduction a = finalReduction b /\
  finalReductionYear a = finalReductionYear b /\
  noBelowZero a = noBelowZero b /\
  curveShiftFuelName a = curveShiftFuelName b.

(** Two runs, one reading its curve at [l], the other at [l'], have the
    same log and find the same curve. *)
Definition sim (l l' : loc) (w w' : World) : Prop :=
  log w = log w' /\
  exists c, heap w !! l = Some c /\ heap w' !! l' = Some c.

Definition rel {A} (l l' : loc) (r r' : result (A * World)) : Prop :=
  match r, r' with
  | Ok (a, w), Ok (a', w') => a = a' /\ sim l l' w w'
  | Fault f, Fault f' => f = f'
  | _, _ => False
  end.

(** The object [clone] returns and the store it leaves. *)
Definition twin (self : GhgMAC) (w : World) : GhgMAC :=
  {| name := "";
     macCurve := Some (fresh (dom (heap w)));
     phaseIn := phaseIn self;
     fuelShiftRange := fuelShiftRange self;
     costReductionRate := costReductionRate self;
     baseCostYear := baseCostYear self;
     finalReduction := finalReduction self;
     finalReductionYear := finalReductionYear self;
     noBelowZero := noBelowZero self;
     curveShiftFuelName := curveShiftFuelName self |}.

Definition twin_world (curve : Curve) (w : World) : World :=
  {| heap := <[fresh (dom (heap w)) := curve]> (heap w); log := log w |}.

(** ** XML input and output of GhgMAC *)

(** [XML_NAME], as [getXMLName] and [getXMLNameStatic] return it. *)
Definition XML_NAME : string := "MAC".

Definition getXMLName (self : GhgMAC) : string := XML_NAME.

Definition getXMLNameStatic : string := XML_NAME.

(** A child of the node handed to [XMLParse].  The readers of [XMLHelper]
    are not part of the embedded files, so a child is given by its name and
    by what each reader returns on it. *)
Record DOMNode : Type := {
  getNodeName : string;
  getValue_double : double;
  getValue_int : Z;
  getValue_bool : bool;
  getValue_string : string;
  getAttr_tax : double
}.

Definition with_macCurve (p : option loc) (self : GhgMAC) : GhgMAC :=
  {| name := name self; macCurve := p; phaseIn := phaseIn self;
     fuelShiftRange := fuelShiftRange self;
     costReductionRate := costReductionRate self;
     baseCostYear := baseCostYear self; finalReduction := finalReduction self;
     finalReductionYear := finalReductionYear self;
     noBelowZero := noBelowZero self;
     curveShiftFuelName := curveShiftFuelName self |}.

Definition with_phaseIn (v : double) (self : GhgMAC) : GhgMAC :=
  {| name := name self; macCurve := macCurve self; phaseIn := v;
     fuelShiftRange := fuelShiftRange self;
     costReductionRate := costReductionRate self;
     baseCostYear := baseCostYear self; finalReduction := finalReduction self;
     finalReductionYear := finalReductionYear self;
     noBelowZero := noBelowZero self;
     curveShiftFuelName := curveShiftFuelName self |}.

Definition with_fuelShiftRange (v : double) (self : GhgMAC) : GhgMAC :=
  {| name := name self; macCurve := macCurve self; phaseIn := phaseIn self;
     fuelShiftRange := v;
     costReductionRate := costReductionRate self;
     baseCostYear := baseCostYear self; finalReduction := finalReduction self;
     finalReductionYear := finalReductionYear self;
     noBelowZero := noBelowZero self;
     curveShiftFuelName := curveShiftFuelName self |}.

Definition with_costReductionRate (v : double) (self : GhgMAC) : GhgMAC :=
  {| name := name self; macCurve := macCurve self; phaseIn := phaseIn self;
     fuelShiftRange := fuelShiftRange self;
     costReductionRate := v;
     baseCostYear := baseCostYear self; finalReduction := finalReduction self;
     finalReductionYear := finalReductionYear self;
     noBelowZero := noBelowZero self;
     curveShiftFuelName := curveShiftFuelName self |}.

Definition with_baseCostYear (v : Z) (self : GhgMAC) : GhgMAC :=
  {| name := name self; macCurve := macCurve self; phaseIn := phaseIn self;
     fuelShiftRange := fuelShiftRange self;
     costReductionRate := costReductionRate self;
     baseCostYear := v; finalReduction := finalReduction self;
     finalReductionYear := finalReductionYear self;
     noBelowZero := noBelowZero self;
     curveShiftFuelName := curveShiftFuelName self |}.

Definition with_finalReduction (v : double) (self : GhgMAC) : GhgMAC :=
  {| name := name self; macCurve := macCurve self; phaseIn := phaseIn self;
     fuelShiftRange := fuelShiftRange self;
     costReductionRate := costReductionRate self;
     baseCostYear := baseCostYear self; finalReduction := v;
     finalReductionYear := finalReductionYear self;
     noBelowZero := noBelowZero self;
     curveShiftFuelName := curveShiftFuelName self |}.

Definition with_finalReductionYear (v : Z) (self : GhgMAC) : GhgMAC :=
  {| name := name self; macCurve := macCurve self; phaseIn := phaseIn self;
     fuelShiftRange := fuelShiftRange self;
     costReductionRate := costReductionRate self;
     baseCostYear := baseCostYear self; finalReduction := finalReduction self;
     finalReductionYear := v;
     noBelowZero := noBelowZero self;
     curveShiftFuelName := curveShiftFuelName self |}.

Definition with_noBelowZero (v : bool) (self : GhgMAC) : GhgMAC :=
  {| name := name self; macCurve := macCurve self; phaseIn := phaseIn self;
     fuelShiftRange := fuelShiftRange self;
     costReductionRate := costReductionRate self;
     baseCostYear := baseCostYear self; finalReduction := finalReduction self;
     finalReductionYear := finalReductionYear self;
     noBelowZero := v;
     curveShiftFuelName := curveShiftFuelName self |}.

Definition with_curveShiftFuelName (v : string) (self : GhgMAC) : GhgMAC :=
  {| name := name self; macCurve := macCurve self; phaseIn := phaseIn self;
     fuelShiftRange := fuelShiftRange self;
     costReductionRate := costReductionRate self;
     baseCostYear := baseCostYear self; finalReduction := finalReduction self;
     finalReductionYear := finalReductionYear self;
     noBelowZero := noBelowZero self;
     curveShiftFuelName := v |}.

(** The line [XMLParse] writes for a child it does not know. *)
Definition unrecognized (nodeName : string) : LogEntry :=
  (WARNING,
   ("Unrecognized text string: " ++ nodeName ++ " found while parsing "
    ++ XML_NAME ++ ".")%string).

(** One round of the loop of [XMLParse]: the object and the points
    collected so far ([currPoints], in the order of [addPoint]). *)
Definition XMLParse_child (st : GhgMAC * list (double * double))
    (curr : DOMNode) : M (GhgMAC * list (double * double)) :=
  let self := st.1 in
  let currPoints := st.2 in
  let nodeName := getNodeName curr in
  if decide (nodeName = "#text") then ret (self, currPoints)
  else if decide (nodeName = "phaseIn")
  then ret (with_phaseIn (getValue_double curr) self, currPoints)
  else if decide (nodeName = "costReductionRate")
  then ret (with_costReductionRate (getValue_double curr) self, currPoints)
  else if decide (nodeName = "baseCostYear")
  then ret (with_baseCostYear (getValue_int curr) self, currPoints)
  else if decide (nodeName = "fuelShiftRange")
  then ret (with_fuelShiftRange (getValue_double curr) self, currPoints)
  else if decide (nodeName = "curveShiftFuelName")
  then ret (with_curveShiftFuelName (getValue_string curr) self, currPoints)
  else if decide (nodeName = "finalReduction")
  then ret (with_finalReduction (getValue_double curr) self, currPoints)
  else if decide (nodeName = "finalReductionYear")
  then ret (with_finalReductionYear (getValue_int curr) self, currPoints)
  else if decide (nodeName = "noBelowZero")
  then ret (with_noBelowZero (getValue_bool curr) self, currPoints)
  else if decide (nodeName = "reduction")
  then
    let taxVal := getAttr_tax curr in
    let reductionVal := getValue_double curr in
    ret (self, currPoints ++ [(taxVal, reductionVal)])
  else
    _ <- mainLog (fst (unrecognized nodeName)) (snd (unrecognized nodeName)) ;;
    ret (self, currPoints).

Fixpoint XMLParse_loop (nodeList : list DOMNode)
    (st : GhgMAC * list (double * double))
    : M (GhgMAC * list (double * double)) :=
  match nodeList with
  | [] => ret st
  | curr :: rest => st' <- XMLParse_child st curr ;; XMLParse_loop rest st'
  end.

(** Reads the children of a MAC node.  [newPointSetCurve] stands for
    [new PointSetCurve( currPoints )], whose class is not embedded. *)
Definition XMLParse (newPointSetCurve : list (double * double) -> Curve)
    (self : GhgMAC) (nodeList : list DOMNode) : M GhgMAC :=
  st <- XMLParse_loop nodeList (self, []) ;;
  c <- alloc (newPointSetCurve st.2) ;;
  _ <- auto_ptr_reset (macCurve st.1) ;;
  ret (with_macCurve (Some c) st.1).

(** The calls [toInputXML] and [toDebugXML] make to the writers of
    xml_helper.h, which are not embedded: the output is the sequence of
    these calls. *)
Inductive XMLValue : Type :=
  | VDouble (d : double)
  | VInt (z : Z)
  | VBool (b : bool).

Inductive XMLCall : Type :=
  | WriteOpeningTag (tag : string) (name : string)
  | WriteElementCheckDefault (value : XMLValue) (elementName : string)
                             (defaultValue : option XMLValue)
  | WriteElement (value : XMLValue) (elementName : string)
  | WriteElementWithAttributes (value : XMLValue) (elementName : string)
                               (attrs : gmap string double)
  | WriteClosingTag (tag : string).

(** The loop over the sorted pairs in [toInputXML]; [attrs] lives across
    the rounds. *)
Fixpoint writeReductions (pairs : list (double * double))
    (attrs : gmap string double) : list XMLCall :=
  match pairs with
  | [] => []
  | currPair :: rest =>
      let attrs := <["tax" := currPair.1]> attrs in
      WriteElementWithAttributes (VDouble currPair.2) "reduction" attrs
      :: writeReductions rest attrs
  end.

Section GhgMAC_output.

Variable scenario : Scenario.

(** Write out the datamembers of the GHGMac in an XML format. *)
Definition toInputXML (self : GhgMAC) : M (list XMLCall) :=
  let modeltime := getModeltime scenario in
  curve <- deref (macCurve self) ;;
  let pairs := getSortedPairs curve in
  ret ([ WriteOpeningTag (getXMLName self) (name self);
         WriteElementCheckDefault (VBool (noBelowZero self)) "noBelowZero"
                                  (Some (VBool false));
         WriteElementCheckDefault (VDouble (fuelShiftRange self))
                                  "fuelShiftRange" (Some (VDouble 0));
         WriteElementCheckDefault (VDouble (costReductionRate self))
                                  "costReductionRate" (Some (VDouble 0));
         WriteElementCheckDefault
           (VInt (baseCostYear self)) "baseCostYear"
           (Some (VInt (getper_to_yr modeltime (getBasePeriod modeltime))));
         WriteElementCheckDefault (VDouble (phaseIn self)) "phaseIn"
                                  (Some (VDouble 1));
         WriteElementCheckDefault (VDouble (finalReduction self))
                                  "finalReduction" (Some (VDouble 0));
         WriteElementCheckDefault (VInt (finalReductionYear self))
                                  "finalReductionYear"
                                  (Some (VInt (getEndYear modeltime))) ]
       ++ writeReductions pairs (empty : gmap string double)
       ++ [ WriteClosingTag (getXMLName self) ]).

(** Write out datamembers for debugging in an XML format. *)
Definition toDebugXML (self : GhgMAC) (period : Z) : M (list XMLCall) :=
  curve <- deref (macCurve self) ;;
  let pairs := getSortedPairs curve in
  ret ([ WriteOpeningTag (getXMLName self) (name self);
         WriteElement (VBool (noBelowZero self)) "noBelowZero";
         WriteElement (VDouble (fuelShiftRange self)) "fuelShiftRange";
         WriteElementCheckDefault (VDouble (costReductionRate self))
                                  "costReductionRate" None;
         WriteElementCheckDefault (VInt (baseCostYear self)) "baseCostYear"
                                  None;
         WriteElement (VDouble (phaseIn self)) "phaseIn";
         WriteElement (VDouble (finalReduction self)) "finalReduction" ]
       ++ flat_map (fun currPair =>
                      [ WriteElement (VDouble currPair.1) "taxVal";
                        WriteElement (VDouble currPair.2) "reductionVal" ])
                   pairs
       ++ [ WriteClosingTag (getXMLName self) ]).

End GhgMAC_output.

(** The name under which a call writes an element, if it writes one. *)
Definition elementName_of (c : XMLCall) : option string :=
  match c with
  | WriteElementCheckDefault _ n _ => Some n
  | WriteElement _ n => Some n
  | WriteElementWithAttributes _ n _ => Some n
  | WriteOpeningTag _ _ | WriteClosingTag _ => None
  end.

(** The child names for which [XMLParse] has a branch. *)
Definition recognised (nodeName : string) : Prop :=
  elem_of nodeName
    ([ "#text"; "phaseIn"; "costReductionRate"; "baseCostYear";
       "fuelShiftRange"; "curveShiftFuelName"; "finalReduction";
       "finalReductionYear"; "noBelowZero"; "reduction" ] : list string).

(** The last child of the given name. *)
Definition last_named (n : string) (nodeList : list DOMNode) : option DOMNode :=
  last (filter (fun d => getNodeName d = n) nodeList).

(** The points of the "reduction" children, in document order. *)
Definition points_of (nodeList : list DOMNode) : list (double * double) :=
  map (fun d => (getAttr_tax d, getValue_double d))
      (filter (fun d => getNodeName d = "reduction"%string) nodeList).

(** The warnings for the children without a branch, in document order. *)
Definition warnings_of (nodeList : list DOMNode) : list LogEntry :=
  map (fun d => unrecognized (getNodeName d))
      (filter (fun d => ~ recognised (getNodeName d)) nodeList).

(** A child with a name and a number. *)
Definition node (n : string) (v : double) : DOMNode :=
  {| getNodeName := n; getValue_double := v; getValue_int := 0;
     getValue_bool := false; getValue_string := ""; getAttr_tax := 0 |}.

(** A "reduction" child. *)
Definition reduction_node (tax v : double) : DOMNode :=
  {| getNodeName := "reduction"; getValue_double := v; getValue_int := 0;
     getValue_bool := false; getValue_string := ""; getAttr_tax := tax |}.

(** ** More of BuildingHeatCoolDmdTechnology *)

Module BuildingMore.

Import Building.

(** Constructor.  [shrwts] is set by the constructor of the base class,
    which is not embedded, and comes in as [baseShrwts]. *)
Definition BuildingHeatCoolDmdTechnology_new (baseShrwts : double)
    : BuildingHeatCoolDmdTechnology :=
  {| shrwts := baseShrwts;
     aveInsulation := 0;
     floorToSurfaceArea := 0;
     fractionOfYearActive := 0;
     intGainsMarketName := "" |}.

Section Derived.

(** [BuildingGenericDmdTechnology::XMLDerivedClassParse] and
    [BuildingGenericDmdTechnology::initCalc], which are not embedded: the
    parse of the base class answers with the object when it knows the
    name. *)
Variable baseXMLDerivedClassParse :
  BuildingHeatCoolDmdTechnology -> string -> DOMNode
  -> option BuildingHeatCoolDmdTechnology.
Variable baseInitCalc :
  BuildingHeatCoolDmdTechnology -> string -> string -> IInfo -> Z
  -> M BuildingHeatCoolDmdTechnology.

(** Parses any input variables specific to derived classes. *)
Definition XMLDerivedClassParse (self : BuildingHeatCoolDmdTechnology)
    (nodeName : string) (curr : DOMNode)
    : bool * BuildingHeatCoolDmdTechnology :=
  match baseXMLDerivedClassParse self nodeName curr with
  | Some self' => (true, self')
  | None =>
      if decide (nodeName = "fractionOfYearActive")
      then (true, {| shrwts := shrwts self;
                     aveInsulation := aveInsulation self;
                     floorToSurfaceArea := floorToSurfaceArea self;
                     fractionOfYearActive := getValue_double curr;
                     intGainsMarketName := intGainsMarketName self |})
      else if decide (nodeName = "intGainsMarketName")
      then (true, {| shrwts := shrwts self;
                     aveInsulation := aveInsulation self;
                     floorToSurfaceArea := floorToSurfaceArea self;
                     fractionOfYearActive := fractionOfYearActive self;
                     intGainsMarketName := getValue_string curr |})
      else (false, self)
  end.

(** Initializations that are done once per period. *)
Definition initCalc (self : BuildingHeatCoolDmdTechnology)
    (aRegionName aSectorName : string) (aSubsectorInfo : IInfo) (aPeriod : Z)
    : M BuildingHeatCoolDmdTechnology :=
  let self :=
    {| shrwts := shrwts self;
       aveInsulation := getDouble aSubsectorInfo "aveInsulation" true;
       floorToSurfaceArea := getDouble aSubsectorInfo "floorToSurfaceArea" true;
       fractionOfYearActive := fractionOfYearActive self;
       intGainsMarketName := intGainsMarketName self |} in
  baseInitCalc self aRegionName aSectorName aSubsectorInfo aPeriod.

End Derived.

(** A cooling technology: internal gains raise the demand. *)
Definition cooling : HeatCoolVariant :=
  {| getInternalGainsSign := - 1;
     getDemandFnPrefix := fun self _ _ =>
       aveInsulation self * floorToSurfaceArea self |}.


(** Internal gains of 50 in every period. *)
Definition scenario_gains_high : Scenario :=
  {| getModeltime := calendar15;
     getMarketplace := market "internal gains" (fun _ => of_int 50) 0 |}.

End BuildingMore.

(** ** Further inputs and vocabulary *)

(** A curve with the single point (100, 1/2). *)
Definition world_point : World :=
  {| heap := {[ 1%positive := PointSetCurve [(of_int 100, Q2Qc (1 # 2))] ]};
     log := [] |}.

(** Two curves in the store: the curve of section 8 at 1 and a single point
    at 2. *)
Definition world_two : World :=
  {| heap := {[ 1%positive := curve8;
                2%positive := PointSetCurve [(of_int 100, Q2Qc (1 # 2))] ]};
     log := [] |}.

Definition mac_other : GhgMAC :=
  {| name := "N2O"; macCurve := Some 2%positive; phaseIn := of_int 3;
     fuelShiftRange := 0; costReductionRate := 0; baseCostYear := 1990;
     finalReduction := 0; finalReductionYear := 2095; noBelowZero := true;
     curveShiftFuelName := "" |}.

(** The children of a MAC node: a phase-in of 3, a comment, two points, a
    phase-in of 2 and an element the class does not know. *)
Definition nodes_example : list DOMNode :=
  [ node "phaseIn" (of_int 3);
    node "#text" 0;
    reduction_node 0 0;
    reduction_node (of_int 100) (Q2Qc (1 # 2));
    node "phaseIn" (of_int 2);
    node "gwp" (of_int 21) ].

(** The store is the one of [w] and the log that of [w] followed by [k]
    ERROR lines of [getMACValue]. *)
Definition after_errors (w : World) (k : nat) (w' : World) : Prop :=
  heap w' = heap w /\ log w' = log w ++ replicate k macError.

(** The object after the loop, field by field: the value of the last child
    of the field's name, the old value without such a child. *)
Definition parsed_fields (self self' : GhgMAC) (nodeList : list DOMNode) : Prop :=
  name self' = name self /\
  macCurve self' = macCurve self /\
  phaseIn self'
    = from_option getValue_double (phaseIn self)
                  (last_named "phaseIn" nodeList) /\
  costReductionRate self'
    = from_option getValue_double (costReductionRate self)
                  (last_named "costReductionRate" nodeList) /\
  baseCostYear self'
    = from_option getValue_int (baseCostYear self)
                  (last_named "baseCostYear" nodeList) /\
  fuelShiftRange self'
    = from_option getValue_double (fuelShiftRange self)
                  (last_named "fuelShiftRange" nodeList) /\
  curveShiftFuelName self'
    = from_option getValue_string (curveShiftFuelName self)
                  (last_named "curveShiftFuelName" nodeList) /\
  finalReduction self'
    = from_option getValue_double (finalReduction self)
                  (last_named "finalReduction" nodeList) /\
  finalReductionYear self'
    = from_option getValue_int (finalReductionYear self)
                  (last_named "finalReductionYear" nodeList) /\
  noBelowZero self'
    = from_option getValue_bool (noBelowZero self)
                  (last_named "noBelowZero" nodeList).

(** The store and log [XMLParse] leaves. *)
Definition parsed_world (newPointSetCurve : list (double * double) -> Curve)
    (self : GhgMAC) (nodeList : list DOMNode) (w : World) : World :=
  {| heap := match macCurve self with
             | Some old =>
                 delete old (<[fresh (dom (heap w))
                               := newPointSetCurve (points_of nodeList)]> (heap w))
             | None =>
                 <[fresh (dom (heap w))
                   := newPointSetCurve (points_of nodeList)]> (heap w)
             end;
     log := log w ++ warnings_of nodeList |}.

(** The element [toInputXML] writes for a point of the curve. *)
Definition reduction_element (p : double * double) : XMLCall :=
  WriteElementWithAttributes (VDouble p.2) "reduction"
                             ({[ "tax"%string := p.1 ]} : gmap string double).

(** * Properties *)

(** ** Arithmetic of the idealised doubles *)

Lemma of_int_le (n m : Z) : (n <= m)%Z -> of_int n <= of_int m.
Proof. apply Z2Qc_inj_le. Qed.

Lemma of_int_lt (n m : Z) : (n < m)%Z -> of_int n < of_int m.
Proof. apply Z2Qc_inj_lt. Qed.

Lemma of_int_0 : of_int 0 = 0.
Proof. apply Z2Qc_inj_0. Qed.

Lemma Qc_pos_neq_0 (c : double) : 0 < c -> c <> 0.
Proof. intros H ->. exact (Qclt_not_eq _ _ H eq_refl). Qed.

Lemma Qcdiv_le_mono_pos (a b c : double) : 0 < c -> a <= b -> a / c <= b / c.
Proof.
  intros Hc Hab. unfold Qcdiv.
  apply Qcmult_le_mono_nonneg_r; [apply Qclt_le_weak, Qcinv_pos, Hc | exact Hab].
Qed.

Lemma Qcdiv_lt_1 (a c : double) : 0 < c -> a < c -> a / c < 1.
Proof.
  intros Hc Hac.
  rewrite <- (Qcmult_inv_r c (Qc_pos_neq_0 c Hc)). unfold Qcdiv.
  apply Qcmult_lt_mono_pos_r; [apply Qcinv_pos, Hc | exact Hac].
Qed.

Lemma Qcdiv_nonneg (a c : double) : 0 <= a -> 0 < c -> 0 <= a / c.
Proof.
  intros Ha Hc. unfold Qcdiv.
  apply Qcmult_nonneg_nonneg; [exact Ha | apply Qclt_le_weak, Qcinv_pos, Hc].
Qed.

Lemma Qc_0_lt_1 : (0 : double) < 1.
Proof. reflexivity. Qed.

(** ** Phase-in *)

Section PhaseIn.

Variable self : GhgMAC.

Lemma adjustPhaseIn_ramp (period : Z) :
  of_int (period - 1) < phaseIn self -> 1 <= phaseIn self ->
  adjustPhaseIn self period = of_int (period - 1) / phaseIn self.
Proof.
  intros Hlt Hge. unfold adjustPhaseIn.
  destruct (decide _) as [_ | Hn]; [reflexivity | tauto].
Qed.

Lemma adjustPhaseIn_full (period : Z) :
  phaseIn self <= of_int (period - 1) -> adjustPhaseIn self period = 1.
Proof.
  intros Hle. unfold adjustPhaseIn.
  destruct (decide _) as [[Hlt _] | _]; [| reflexivity].
  exfalso. exact (Qcle_not_lt _ _ Hle Hlt).
Qed.

Lemma adjustPhaseIn_off (period : Z) :
  phaseIn self < 1 -> adjustPhaseIn self period = 1.
Proof.
  intros Hlt. unfold adjustPhaseIn.
  destruct (decide _) as [[_ Hge] | _]; [| reflexivity].
  exfalso. exact (Qcle_not_lt _ _ Hge Hlt).
Qed.

Lemma adjustPhaseIn_le_1 (period : Z) : adjustPhaseIn self period <= 1.
Proof.
  unfold adjustPhaseIn.
  destruct (decide _) as [[Hlt Hge] | _]; [| apply Qcle_refl].
  apply Qclt_le_weak, Qcdiv_lt_1; [| exact Hlt].
  exact (Qclt_le_trans _ _ _ Qc_0_lt_1 Hge).
Qed.

Lemma adjustPhaseIn_mono (p1 p2 : Z) :
  (p1 <= p2)%Z -> adjustPhaseIn self p1 <= adjustPhaseIn self p2.
Proof.
  intros Hp.
  assert (Hconv : of_int (p1 - 1) <= of_int (p2 - 1)) by (apply of_int_le; lia).
  destruct (Qclt_le_dec (phaseIn self) 1) as [Hoff | Hon].
  { rewrite !adjustPhaseIn_off by exact Hoff. apply Qcle_refl. }
  destruct (Qclt_le_dec (of_int (p2 - 1)) (phaseIn self)) as [H2 | H2].
  - rewrite !adjustPhaseIn_ramp;
      [| exact H2 | exact Hon | exact (Qcle_lt_trans _ _ _ Hconv H2) | exact Hon].
    apply Qcdiv_le_mono_pos; [| exact Hconv].
    exact (Qclt_le_trans _ _ _ Qc_0_lt_1 Hon).
  - rewrite (adjustPhaseIn_full p2) by exact H2. apply adjustPhaseIn_le_1.
Qed.

Lemma adjustPhaseIn_nonneg (period : Z) :
  (1 <= period)%Z -> 0 <= adjustPhaseIn self period.
Proof.
  intros Hp. unfold adjustPhaseIn.
  destruct (decide _) as [[Hlt Hge] | _]; [| apply Qclt_le_weak, Qc_0_lt_1].
  apply Qcdiv_nonneg.
  - rewrite <- of_int_0. apply of_int_le. lia.
  - exact (Qclt_le_trans _ _ _ Qc_0_lt_1 Hge).
Qed.

End PhaseIn.

(** C3.  The phase-in multiplier depends on [period] and [phaseIn] only.
    It is 0 in period 1 when [phaseIn >= 1], it is [(period-1)/phaseIn]
    while [period-1 < phaseIn] and [phaseIn >= 1], it is exactly 1 once
    [period-1 >= phaseIn] and whenever [phaseIn < 1]; it never decreases
    when the period grows and, from period 1 on, stays between 0 and 1. *)
Theorem adjustPhaseIn_spec (self : GhgMAC) (period : Z) :
  (forall other, phaseIn other = phaseIn self ->
     adjustPhaseIn other period = adjustPhaseIn self period) /\
  (1 <= phaseIn self -> adjustPhaseIn self 1 = 0) /\
  (of_int (period - 1) < phaseIn self -> 1 <= phaseIn self ->
     adjustPhaseIn self period = of_int (period - 1) / phaseIn self) /\
  (phaseIn self <= of_int (period - 1) -> adjustPhaseIn self period = 1) /\
  (phaseIn self < 1 -> adjustPhaseIn self period = 1) /\
  (forall later, (period <= later)%Z ->
     adjustPhaseIn self period <= adjustPhaseIn self later) /\
  ((1 <= period)%Z -> 0 <= adjustPhaseIn self period <= 1).
Proof.
  repeat split.
  - intros other Heq. unfold adjustPhaseIn. rewrite Heq. reflexivity.
  - intros Hge. rewrite adjustPhaseIn_ramp.
    + change (of_int (1 - 1)) with (of_int 0). rewrite of_int_0.
      unfold Qcdiv. apply Qcmult_0_l.
    + change (of_int (1 - 1)) with (of_int 0). rewrite of_int_0.
      exact (Qclt_le_trans _ _ _ Qc_0_lt_1 Hge).
    + exact Hge.
  - apply adjustPhaseIn_ramp.
  - apply adjustPhaseIn_full.
  - apply adjustPhaseIn_off.
  - intros later. apply adjustPhaseIn_mono.
  - apply adjustPhaseIn_nonneg. assumption.
  - apply adjustPhaseIn_le_1.
Qed.

Lemma adjustPhaseIn_spec_witness :
  adjustPhaseIn mac_phase3 1 = 0 /\
  adjustPhaseIn mac_phase3 2 = of_int (2 - 1) / of_int 3 /\
  adjustPhaseIn mac_phase3 4 = 1 /\
  adjustPhaseIn mac_phase3 2 <= adjustPhaseIn mac_phase3 3 /\
  0 <= adjustPhaseIn mac_phase3 2 <= 1.
Proof.
  destruct (adjustPhaseIn_spec mac_phase3 2) as (_ & H1 & H2 & _ & _ & H5 & H6).
  destruct (adjustPhaseIn_spec mac_phase3 4) as (_ & _ & _ & H4 & _).
  split; [apply H1; vm_compute; discriminate |].
  split; [apply H2; vm_compute; (reflexivity || discriminate) |].
  split; [apply H4; vm_compute; discriminate |].
  split; [apply H5; lia |].
  apply H6; lia.
Defined.

(** ** Cost-reduction decay *)






Section CostReduction.

Variable scenario : Scenario.
Variable self : GhgMAC.

Lemma shiftCostReduction_zero_rate (period : Z) (w : World) :
  shiftCostReduction scenario self period 0 w = Ok (1, w).
Proof.
  unfold shiftCostReduction.
  destruct (decide (0 <> 0)) as [Hne | _]; [congruence | reflexivity].
Qed.



End CostReduction.



(** ** Curve lookup *)

(** The first scenario of section 8: at a carbon price of 150 in period 2
    the curve gives 0.7 and the phase-in is complete. *)
Example findReduction_scenario_150 :
  outcome (findReduction (scenario8 (of_int 150)) mac8 "USA" 2 world8)
  = Ok (getY curve8 (of_int 150) * 1, []) /\
  this (getY curve8 (of_int 150) * 1) = (7 # 10)%Q.
Proof. split; reflexivity. Qed.

Lemma deref_owns (w : World) (self : GhgMAC) (curve : Curve) :
  owns w self curve -> deref (macCurve self) w = Ok (curve, w).
Proof. intros (l & -> & Hl). unfold deref. rewrite Hl. reflexivity. Qed.

Lemma owns_logged (w : World) (self : GhgMAC) (curve : Curve) (e : LogEntry) :
  owns w self curve -> owns (logged w e) self curve.
Proof. intros (l & Hp & Hl). exists l. split; assumption. Qed.

Lemma dmin_above (price maxX : double) : maxX <= price -> dmin price maxX = maxX.
Proof.
  intros Hle. unfold dmin. destruct (decide _) as [_ | Hn]; [reflexivity |].
  apply Qcle_antisym; [apply Qcnot_lt_le, Hn | exact Hle].
Qed.

Lemma dmin_below (price maxX : double) : price <= maxX -> dmin price maxX = price.
Proof.
  intros Hle. unfold dmin. destruct (decide _) as [Hlt | _]; [| reflexivity].
  exfalso. exact (Qcle_not_lt _ _ Hle Hlt).
Qed.

Lemma dmin_le_r (a b : double) : dmin a b <= b.
Proof.
  unfold dmin. destruct (decide _) as [_ | Hn]; [apply Qcle_refl |].
  apply Qcnot_lt_le, Hn.
Qed.

Lemma dmax_le_r (a b : double) : b <= dmax a b.
Proof.
  unfold dmax. destruct (decide _) as [_ | Hn]; [apply Qcle_refl |].
  apply Qcnot_lt_le, Hn.
Qed.


Section Lookup.

Variable self : GhgMAC.
Variable curve : Curve.
Variable w : World.
Hypothesis Howns : owns w self curve.

Lemma getMACValue_run (price : double) :
  getMACValue self price w
  = if decide (getY curve (dmin price (getMaxX curve)) = - DBL_MAX)
    then Ok (0, logged w macError)
    else Ok (getY curve (dmin price (getMaxX curve)), w).
Proof.
  unfold getMACValue, bind. rewrite (deref_owns _ _ _ Howns).
  destruct (decide _); reflexivity.
Qed.

Lemma getMACValue_at_clamped (price : double) :
  getMACValue self price w = getMACValue self (dmin price (getMaxX curve)) w.
Proof.
  rewrite !getMACValue_run.
  rewrite (dmin_below (dmin price (getMaxX curve))) by apply dmin_le_r.
  reflexivity.
Qed.

End Lookup.

(** C5.  At every price at or above the largest x of the curve the lookup
    returns what it returns at that largest x: value, log and store. *)
Theorem getMACValue_upper_clamp (self : GhgMAC) (curve : Curve) (w : World)
    (price : double) :
  owns w self curve ->
  getMaxX curve <= price ->
  getMACValue self price w = getMACValue self (getMaxX curve) w.
Proof.
  intros Howns Hle.
  rewrite (getMACValue_at_clamped self curve w Howns price).
  rewrite dmin_above by exact Hle. reflexivity.
Qed.

Lemma mac8_owns : owns world8 mac8 curve8.
Proof. exists 1%positive. split; reflexivity. Qed.

Lemma getMACValue_upper_clamp_witness :
  getMACValue mac8 (of_int 350) world8 = getMACValue mac8 (getMaxX curve8) world8.
Proof.
  apply (getMACValue_upper_clamp mac8 curve8 world8 (of_int 350)).
  - exact mac8_owns.
  - vm_compute. discriminate.
Defined.

(** C8.  When the curve answers with its failure value [-DBL_MAX] the
    lookup writes one ERROR line and returns 0, as a normal result; in
    every other case it returns the answer of the curve at the price
    clamped from above and writes nothing. *)
Theorem getMACValue_sentinel (self : GhgMAC) (curve : Curve) (w : World)
    (price : double) :
  owns w self curve ->
  (getY curve (dmin price (getMaxX curve)) = - DBL_MAX ->
     getMACValue self price w
     = Ok (0, {| heap := heap w; log := log w ++ [macError] |}) /\
     fst macError = ERROR) /\
  (getY curve (dmin price (getMaxX curve)) <> - DBL_MAX ->
     getMACValue self price w
     = Ok (getY curve (dmin price (getMaxX curve)), w)).
Proof.
  intros Howns. rewrite (getMACValue_run self curve w Howns).
  split; intros Hy; destruct (decide _) as [He | Hne]; try contradiction.
  - split; reflexivity.
  - reflexivity.
Qed.

Lemma getMACValue_sentinel_witness :
  getMACValue mac8 (of_int 50) world_empty
  = Ok (0, {| heap := heap world_empty; log := [macError] |}) /\
  getMACValue mac8 (of_int 150) world8 = Ok (Q2Qc (7 # 10), world8).
Proof.
  split.
  - apply (getMACValue_sentinel mac8 (PointSetCurve []) world_empty (of_int 50)).
    + exists 1%positive. split; reflexivity.
    + reflexivity.
  - destruct (getMACValue_sentinel mac8 curve8 world8 (of_int 150) mac8_owns)
      as [_ Hok].
    rewrite Hok.
    + reflexivity.
    + vm_compute. discriminate.
Defined.

(** ** Fuel-price shift *)

Lemma of_int_quot_3_5 : of_int (Z.quot 3 5) = 0.
Proof. apply Qc_is_canon. reflexivity. Qed.

Lemma of_int_quot_1_2 : of_int (Z.quot 1 2) = 0.
Proof. apply Qc_is_canon. reflexivity. Qed.

Lemma Qcminus_eq_0 (a b : double) : a - b = 0 -> a = b.
Proof.
  intros H. replace a with ((a - b) + b) by ring. rewrite H. ring.
Qed.

Section Shift.

Variable scenario : Scenario.
Variable self : GhgMAC.
Variable curve : Curve.
Variable w : World.
Hypothesis Howns : owns w self curve.

(** With the integer quotients [3 / 5 = 0] and [1 / 2 = 0] the shift term
    vanishes: whatever the fuel prices and [fuelShiftRange] are, the
    carbon price comes back clamped and otherwise unchanged. *)
Lemma shiftNatGas_run (period : Z) (regionName : string) (carbonPrice : double) :
  shiftNatGas scenario self period regionName carbonPrice w
  = if decide (getMaxX curve - getMinX curve = 0)
    then Fault NotFinite
    else Ok (dmin (dmax carbonPrice (getMinX curve)) (getMaxX curve), w).
Proof.
  unfold shiftNatGas.
  set (natGasPrice := getPrice _ _ _ period true).
  set (natGasBasePrice := getPrice _ _ _ 1%Z true).
  assert (Hratio : exists r,
    (if decide (natGasPrice <> 0) then ddiv natGasBasePrice natGasPrice
     else ret 1) w = Ok (r, w)).
  { destruct (decide (natGasPrice <> 0)) as [Hne | _].
    - unfold ddiv. destruct (decide (natGasPrice = 0)); [contradiction |].
      eexists. reflexivity.
    - eexists. reflexivity. }
  destruct Hratio as (r & Hr). unfold bind at 1. rewrite Hr.
  unfold bind at 1. rewrite (deref_owns _ _ _ Howns).
  unfold bind, ddiv.
  destruct (decide (getMaxX curve - getMinX curve = 0)) as [Hz | _];
    [reflexivity |].
  unfold ret. rewrite of_int_quot_3_5, of_int_quot_1_2.
  do 4 f_equal. ring.
Qed.

Lemma shiftNatGas_unshifted (period : Z) (regionName : string)
    (carbonPrice : double) :
  getMaxX curve <> getMinX curve ->
  shiftNatGas scenario self period regionName carbonPrice w
  = Ok (dmin (dmax carbonPrice (getMinX curve)) (getMaxX curve), w).
Proof.
  intros Hdom. rewrite shiftNatGas_run.
  destruct (decide _) as [Hz | _]; [| reflexivity].
  exfalso. apply Hdom, Qcminus_eq_0, Hz.
Qed.


End Shift.

(** C1.  Failing input: [fuelShiftRange = 10], fuel price 1 in period 1 and
    2 in period 2, curve domain [0, 200], carbon price 100.  The stated
    formula gives 100 + 0.6 * 0.5 * 10 * 0.75 = 102.25; the code, whose
    [3 / 5] and [1 / 2] are integer quotients, returns 100. *)
Theorem shiftNatGas_integer_quotients :
  fuelShiftRange mac_gas <> 0 /\
  shiftNatGas (scenario_gas 0) mac_gas 2 "USA" (of_int 100) world8
    = Ok (of_int 100, world8) /\
  adjustedPrice_spec (getMinX curve8) (getMaxX curve8) 1 (of_int 2)
                     (fuelShiftRange mac_gas) (of_int 100)
    = Q2Qc (409 # 4).
Proof.
  split; [discriminate |]. split.
  - rewrite (shiftNatGas_unshifted _ mac_gas curve8 world8);
      [| exists 1%positive; split; reflexivity | discriminate].
    reflexivity.
  - apply Qc_is_canon. reflexivity.
Qed.




(** ** Technological-change cap *)

Section TechChange.

Variable self : GhgMAC.
Variable w : World.
Hypothesis Hfinal : finalReduction self <> 0.

Lemma adjustTechCh_run (period finalReductionPeriod : Z) (maxReduction : double) :
  adjustTechCh self period finalReductionPeriod maxReduction w
  = if decide (period <= finalReductionPeriod)%Z
    then if decide (finalReductionPeriod - 2 = 0)%Z
         then Fault IntDivByZero
         else Ok (maxReduction / finalReduction self
                  * of_int (Z.quot 1 (finalReductionPeriod - 2))
                  * of_int (period - 2), w)
    else Ok (maxReduction / finalReduction self, w).
Proof.
  unfold adjustTechCh, bind, ddiv.
  destruct (decide (finalReduction self = 0)); [contradiction |].
  unfold ret. destruct (decide (period <= finalReductionPeriod)%Z); [| reflexivity].
  unfold idiv. destruct (decide _); reflexivity.
Qed.

(** Beyond the final period the multiplier is [maxReduction / finalReduction]. *)
Lemma adjustTechCh_after (period finalReductionPeriod : Z) (maxReduction : double) :
  (finalReductionPeriod < period)%Z ->
  adjustTechCh self period finalReductionPeriod maxReduction w
  = Ok (maxReduction / finalReduction self, w).
Proof.
  intros Hlt. rewrite adjustTechCh_run.
  destruct (decide _); [lia | reflexivity].
Qed.

(** The call divides by zero exactly when it takes the ramp with
    [finalReductionPeriod = 2]. *)
Lemma adjustTechCh_singular (period finalReductionPeriod : Z) (maxReduction : double) :
  adjustTechCh self period finalReductionPeriod maxReduction w = Fault IntDivByZero
  <-> (period <= 2)%Z /\ finalReductionPeriod = 2%Z.
Proof.
  rewrite adjustTechCh_run. split.
  - destruct (decide (period <= _)%Z); [| discriminate].
    destruct (decide (_ = 0)%Z); [| discriminate]. intros _. lia.
  - intros [Hp ->]. destruct (decide (period <= 2)%Z); [| lia]. reflexivity.
Qed.

(** From a final period of 4 on, [1 / ( finalReductionPeriod - 2 )] is the
    integer 0 and the ramp is flat at 0. *)
Lemma adjustTechCh_ramp_zero (period finalReductionPeriod : Z) (maxReduction : double) :
  (3 < finalReductionPeriod)%Z -> (period <= finalReductionPeriod)%Z ->
  adjustTechCh self period finalReductionPeriod maxReduction w = Ok (0, w).
Proof.
  intros H3 Hp. rewrite adjustTechCh_run.
  destruct (decide (period <= _)%Z); [| lia].
  destruct (decide (_ = 0)%Z); [lia |].
  rewrite Z.quot_small by lia.
  rewrite of_int_0. do 2 f_equal. ring.
Qed.

End TechChange.

(** C2.  Failing input: [finalReduction = 1], [maxReduction = 1/2],
    [period = 3], [finalReductionPeriod = 4].  The linear ramp of the
    specification is (1/2) * (1/2) * 1 = 1/4; the code, whose
    [1 / ( 4 - 2 )] is the integer 0, returns 0. *)
Theorem adjustTechCh_integer_quotient :
  finalReduction mac_cap <> 0 /\
  (3 <= 4)%Z /\
  adjustTechCh mac_cap 3 4 (Q2Qc (1 # 2)) world8 = Ok (0, world8) /\
  capMultiplier_spec (Q2Qc (1 # 2)) (finalReduction mac_cap) 3 4 = Q2Qc (1 # 4).
Proof.
  split; [discriminate |]. split; [lia |]. split.
  - apply adjustTechCh_ramp_zero; [discriminate | lia | lia].
  - apply Qc_is_canon. reflexivity.
Qed.

(** ** The reduction pipeline *)

Section Pipeline.

Variable scenario : Scenario.
Variable self : GhgMAC.

(** Without fuel shift and cost reduction, on a curve that answers, the
    steps up to the phase-in read the curve at the market price. *)
Lemma reductionAfterPhaseIn_plain (curve : Curve) (w : World)
    (regionName : string) (period : Z) :
  let marketplace := getMarketplace scenario in
  let marketPrice := getPrice marketplace "CO2" regionName period false in
  let price :=
    (if decide (marketPrice = NO_MARKET_PRICE marketplace) then 0
     else marketPrice) * 1 in
  owns w self curve ->
  fuelShiftRange self = 0 ->
  costReductionRate self = 0 ->
  getY curve (dmin price (getMaxX curve)) <> - DBL_MAX ->
  getY curve (dmin (getMaxX curve) (getMaxX curve)) <> - DBL_MAX ->
  reductionAfterPhaseIn scenario self regionName period w
  = Ok (((if decide (noBelowZero self = true /\ price < 0) then 0
          else getY curve (dmin price (getMaxX curve)))
         * adjustPhaseIn self period,
         getY curve (dmin (getMaxX curve) (getMaxX curve))), w).
Proof.
  intros marketplace marketPrice price Howns Hshift Hrate Hy Hmax.
  unfold reductionAfterPhaseIn. fold marketplace. fold marketPrice.
  rewrite Hshift, Hrate.
  destruct (decide (0 <> 0)) as [Hne | _]; [congruence |].
  unfold bind at 1, ret at 1.
  unfold bind at 1. rewrite shiftCostReduction_zero_rate.
  fold price.
  unfold bind at 1. rewrite (getMACValue_run self curve w Howns).
  destruct (decide (getY curve (dmin price _) = _)) as [Hbad | _];
    [contradiction |].
  unfold bind at 1. rewrite (deref_owns _ _ _ Howns).
  unfold bind. rewrite (getMACValue_run self curve w Howns).
  destruct (decide (getY curve _ = _)) as [Hbad | _]; [contradiction |].
  reflexivity.
Qed.

Lemma findReduction_split (regionName : string) (period : Z) (w : World) :
  findReduction scenario self regionName period w
  = match reductionAfterPhaseIn scenario self regionName period w with
    | Ok ((reduction, maxReduction), w') =>
        if decide (capTest scenario self maxReduction)
        then match adjustTechCh self period
                     (getper_to_yr (getModeltime scenario) (finalReductionYear self))
                     maxReduction w' with
             | Ok (cap, w'') => Ok (reduction * cap, w'')
             | Fault f => Fault f
             end
        else Ok (reduction, w')
    | Fault f => Fault f
    end.
Proof.
  unfold findReduction, reductionAfterPhaseIn, capTest, bind.
  set (shifted := if decide (fuelShiftRange self <> 0) then _ else _).
  clearbody shifted.
  destruct (shifted w) as [[p w1] | f]; [| reflexivity].
  destruct (shiftCostReduction _ _ _ _ w1) as [[d w2] | f]; [| reflexivity].
  destruct (getMACValue self (p * d) w2) as [[r w3] | f]; [| reflexivity].
  destruct (deref (macCurve self) w3) as [[c w4] | f]; [| reflexivity].
  destruct (getMACValue self (getMaxX c) w4) as [[m w5] | f]; [| reflexivity].
  unfold ret. destruct (decide (m < finalReduction self /\ _)); [| reflexivity].
  destruct (adjustTechCh _ _ _ _ w5) as [[cap w6] | f]; reflexivity.
Qed.

(** The cap is skipped exactly when the test of the code fails. *)
Lemma findReduction_uncapped (regionName : string) (period : Z) (w w' : World)
    (reduction maxReduction : double) :
  reductionAfterPhaseIn scenario self regionName period w = Ok ((reduction, maxReduction), w') ->
  ~ capTest scenario self maxReduction ->
  findReduction scenario self regionName period w = Ok (reduction, w').
Proof.
  intros Hrun Hno. rewrite findReduction_split, Hrun.
  destruct (decide _); [contradiction | reflexivity].
Qed.

Lemma findReduction_capped (regionName : string) (period : Z) (w w' w'' : World)
    (reduction maxReduction cap : double) :
  reductionAfterPhaseIn scenario self regionName period w = Ok ((reduction, maxReduction), w') ->
  capTest scenario self maxReduction ->
  adjustTechCh self period
    (getper_to_yr (getModeltime scenario) (finalReductionYear self))
    maxReduction w' = Ok (cap, w'') ->
  findReduction scenario self regionName period w = Ok (reduction * cap, w'').
Proof.
  intros Hrun Hyes Hcap. rewrite findReduction_split, Hrun.
  destruct (decide _); [| contradiction]. rewrite Hcap. reflexivity.
Qed.

End Pipeline.

(** C7.  Failing input: the curve of section 8, [finalReduction = 1] (above
    the curve's 0.9 at its largest x), [finalReductionYear = 1990], which
    is period 1 of the calendar, carbon price 100, period 2.  The period
    index of the final year is not greater than 1, so the specification
    returns the reduction after phase-in, 1/2.  The code hands the year to
    [getper_to_yr], the conversion from a period to a year (the
    constructor and [shiftCostReduction] use it that way), reads 31825,
    applies the cap and returns 0. *)
Theorem findReduction_year_as_period :
  getper_to_yr calendar15 1 = finalReductionYear mac_cap /\
  reductionAfterPhaseIn (scenario8 (of_int 100)) mac_cap "USA" 2 world8
    = Ok ((Q2Qc (1 # 2), Q2Qc (9 # 10)), world8) /\
  Q2Qc (9 # 10) < finalReduction mac_cap /\
  getper_to_yr calendar15 (finalReductionYear mac_cap) = 31825%Z /\
  findReduction (scenario8 (of_int 100)) mac_cap "USA" 2 world8 = Ok (0, world8).
Proof.
  assert (Hpre : reductionAfterPhaseIn (scenario8 (of_int 100)) mac_cap "USA" 2 world8
                 = Ok ((Q2Qc (1 # 2), Q2Qc (9 # 10)), world8)).
  { rewrite (reductionAfterPhaseIn_plain _ mac_cap curve8 world8);
      [| exists 1%positive; split; reflexivity | reflexivity | reflexivity
       | vm_compute; discriminate | vm_compute; discriminate ].
    repeat f_equal; apply Qc_is_canon; vm_compute; reflexivity. }
  split; [reflexivity |]. split; [exact Hpre |]. split; [reflexivity |].
  split; [reflexivity |].
  rewrite (findReduction_capped _ _ _ _ _ _ world8 _ _ 0 Hpre).
  - rewrite Qcmult_0_r. reflexivity.
  - split; reflexivity.
  - apply adjustTechCh_ramp_zero; [discriminate | reflexivity | discriminate].
Qed.

(** ** Copies *)

Section Frame.

Variables l l' : loc.

Lemma rel_outcome {A} (r r' : result (A * World)) :
  rel l l' r r' -> outcome r = outcome r'.
Proof.
  destruct r as [[a w] | f], r' as [[a' w'] | f']; simpl; try contradiction.
  - intros [-> [-> _]]. reflexivity.
  - intros ->. reflexivity.
Qed.

Lemma rel_ret {A} (a : A) (w w' : World) : sim l l' w w' -> rel l l' (ret a w) (ret a w').
Proof. intros H. split; [reflexivity | exact H]. Qed.

Lemma rel_bind {A B} (m m' : M A) (k k' : A -> M B) (w w' : World) :
  rel l l' (m w) (m' w') ->
  (forall a w1 w1', sim l l' w1 w1' -> rel l l' (k a w1) (k' a w1')) ->
  rel l l' (bind m k w) (bind m' k' w').
Proof.
  unfold bind. intros Hm Hk.
  destruct (m w) as [[a w1] | f], (m' w') as [[a' w1'] | f']; simpl in Hm;
    try contradiction.
  - destruct Hm as [-> Hs]. apply Hk, Hs.
  - exact Hm.
Qed.

Lemma rel_ddiv (a b : double) (w w' : World) :
  sim l l' w w' -> rel l l' (ddiv a b w) (ddiv a b w').
Proof.
  intros H. unfold ddiv. destruct (decide _); [reflexivity | apply rel_ret, H].
Qed.

Lemma rel_idiv (a b : Z) (w w' : World) :
  sim l l' w w' -> rel l l' (idiv a b w) (idiv a b w').
Proof.
  intros H. unfold idiv. destruct (decide _); [reflexivity | apply rel_ret, H].
Qed.

Lemma rel_mainLog (lvl : Level) (msg : string) (w w' : World) :
  sim l l' w w' -> rel l l' (mainLog lvl msg w) (mainLog lvl msg w').
Proof.
  intros [Hlog Hc]. split; [reflexivity |]. split; [| exact Hc].
  simpl. rewrite Hlog. reflexivity.
Qed.

Lemma rel_deref (w w' : World) :
  sim l l' w w' -> rel l l' (deref (Some l) w) (deref (Some l') w').
Proof.
  intros Hs. pose proof Hs as [_ (c & Hl & Hl')].
  unfold deref. rewrite Hl, Hl'. split; [reflexivity | exact Hs].
Qed.

Variable scenario : Scenario.
Variables self self' : GhgMAC.
Hypothesis Hl : macCurve self = Some l.
Hypothesis Hl' : macCurve self' = Some l'.
Hypothesis Hcfg : same_config self self'.

Ltac config :=
  destruct Hcfg as (Hc1 & Hc2 & Hc3 & Hc4 & Hc5 & Hc6 & Hc7 & Hc8);
  rewrite ?Hl, ?Hl', ?Hc1, ?Hc2, ?Hc3, ?Hc4, ?Hc5, ?Hc6, ?Hc7, ?Hc8.

Ltac rel_step :=
  first
    [ assumption
    | apply rel_ret
    | apply rel_ddiv
    | apply rel_idiv
    | apply rel_mainLog
    | apply rel_deref
    | apply rel_bind; [| intros ? ? ? ?]
    | match goal with
      | |- rel _ _ ((if decide ?P then _ else _) _) _ => destruct (decide P)
      end ].

Lemma rel_getMACValue (price : double) (w w' : World) :
  sim l l' w w' -> rel l l' (getMACValue self price w) (getMACValue self' price w').
Proof. intros Hs. unfold getMACValue. config. repeat rel_step. Qed.

Lemma rel_adjustTechCh (period finalReductionPeriod : Z) (maxReduction : double)
    (w w' : World) :
  sim l l' w w' ->
  rel l l' (adjustTechCh self period finalReductionPeriod maxReduction w)
      (adjustTechCh self' period finalReductionPeriod maxReduction w').
Proof. intros Hs. unfold adjustTechCh. config. repeat rel_step. Qed.

Lemma rel_shiftCostReduction (period : Z) (rate : double) (w w' : World) :
  sim l l' w w' ->
  rel l l' (shiftCostReduction scenario self period rate w)
      (shiftCostReduction scenario self' period rate w').
Proof. intros Hs. unfold shiftCostReduction. config. repeat rel_step. Qed.

Lemma rel_shiftNatGas (period : Z) (regionName : string) (carbonPrice : double)
    (w w' : World) :
  sim l l' w w' ->
  rel l l' (shiftNatGas scenario self period regionName carbonPrice w)
      (shiftNatGas scenario self' period regionName carbonPrice w').
Proof. intros Hs. unfold shiftNatGas. config. repeat rel_step. Qed.

Lemma rel_findReduction (regionName : string) (period : Z) (w w' : World) :
  sim l l' w w' ->
  rel l l' (findReduction scenario self regionName period w)
      (findReduction scenario self' regionName period w').
Proof.
  intros Hs. unfold findReduction.
  apply rel_bind.
  { pose proof (rel_shiftNatGas period regionName) as Hshift.
    destruct Hcfg as (_ & Hc2 & _). rewrite Hc2.
    destruct (decide _); [apply Hshift, Hs | apply rel_ret, Hs]. }
  intros p w1 w1' Hs1. apply rel_bind.
  { destruct Hcfg as (_ & _ & Hc3 & _). rewrite Hc3.
    apply rel_shiftCostReduction, Hs1. }
  intros d w2 w2' Hs2. apply rel_bind; [apply rel_getMACValue, Hs2 |].
  intros r w3 w3' Hs3. apply rel_bind; [rewrite Hl, Hl'; apply rel_deref, Hs3 |].
  intros c w4 w4' Hs4. apply rel_bind; [apply rel_getMACValue, Hs4 |].
  intros m w5 w5' Hs5.
  assert (Hphase : adjustPhaseIn self period = adjustPhaseIn self' period).
  { unfold adjustPhaseIn. destruct Hcfg as (Hc1 & _). rewrite Hc1. reflexivity. }
  pose proof (rel_adjustTechCh period) as Hcap.
  destruct Hcfg as (_ & _ & _ & _ & Hc5 & Hc6 & Hc7 & _).
  rewrite Hphase, Hc5, Hc6, Hc7.
  destruct (decide _).
  - apply rel_bind; [apply Hcap, Hs5 |].
    intros cap w6 w6' Hs6. apply rel_ret, Hs6.
  - destruct (decide _); apply rel_ret, Hs5.
Qed.

End Frame.

Section Clone.

Variable self : GhgMAC.
Variable curve : Curve.
Variable w : World.
Hypothesis Howns : owns w self curve.

Lemma clone_run : clone self w = Ok (twin self w, twin_world curve w).
Proof.
  unfold clone, GhgMAC_copy, copy, Curve_clone, bind.
  rewrite (deref_owns _ _ _ Howns). reflexivity.
Qed.

Lemma fresh_unused : heap w !! fresh (dom (heap w)) = None.
Proof. apply not_elem_of_dom, is_fresh. Qed.

Lemma twin_config : same_config (twin self w) self.
Proof. repeat split. Qed.

Lemma owns_twin_world : owns (twin_world curve w) self curve.
Proof.
  destruct Howns as (l & Hp & Hl). exists l. split; [exact Hp |].
  simpl. rewrite lookup_insert_ne; [exact Hl |].
  intros Heq. rewrite <- Heq, fresh_unused in Hl. discriminate.
Qed.

End Clone.

(** C10.  For an object that owns a live curve, [clone] returns an object
    with the same eight configuration fields whose curve sits at a
    location the store did not use, so it is not the original's; the new
    curve has the same points; the original still owns its curve; for
    every region and period [findReduction] on the clone gives what it
    gives on the original, and it keeps doing so for the original
    whatever is later stored at the clone's location. *)
Theorem clone_deep_copy (scenario : Scenario) (self : GhgMAC) (curve : Curve)
    (w : World) :
  owns w self curve ->
  exists (l' : loc) (copied : GhgMAC) (w' : World),
    clone self w = Ok (copied, w') /\
    same_config copied self /\
    macCurve copied = Some l' /\
    heap w !! l' = None /\
    macCurve self <> Some l' /\
    (exists curve', heap w' !! l' = Some curve' /\
                    getSortedPairs curve' = getSortedPairs curve) /\
    owns w' self curve /\
    (forall regionName period,
       outcome (findReduction scenario copied regionName period w')
       = outcome (findReduction scenario self regionName period w)) /\
    (forall other regionName period,
       outcome (findReduction scenario self regionName period
                  {| heap := <[l' := other]> (heap w'); log := log w' |})
       = outcome (findReduction scenario self regionName period w)).
Proof.
  intros Howns. pose proof Howns as (l & Hp & Hl).
  pose proof (fresh_unused w) as Hfresh.
  assert (Hne : l <> fresh (dom (heap w))).
  { intros Heq. rewrite <- Heq, Hl in Hfresh. discriminate. }
  exists (fresh (dom (heap w))), (twin self w), (twin_world curve w).
  split; [apply clone_run, Howns |].
  split; [apply twin_config |].
  split; [reflexivity |].
  split; [exact Hfresh |].
  split; [rewrite Hp; intros [= Heq]; contradiction |].
  split; [exists curve; split; [apply lookup_insert_eq | reflexivity] |].
  split; [apply owns_twin_world, Howns |].
  split.
  - intros regionName period.
    apply (rel_outcome (fresh (dom (heap w))) l).
    apply rel_findReduction; [reflexivity | exact Hp | apply twin_config |].
    split; [reflexivity |]. exists curve. split; [apply lookup_insert_eq | exact Hl].
  - intros other regionName period.
    apply (rel_outcome l l).
    apply rel_findReduction; [exact Hp | exact Hp | repeat split |].
    split; [reflexivity |]. exists curve. split; [| exact Hl].
    simpl. rewrite !lookup_insert_ne by (intros Heq; apply Hne; symmetry; exact Heq).
    exact Hl.
Qed.

Lemma clone_deep_copy_witness :
  exists (l' : loc) (copied : GhgMAC) (w' : World),
    clone mac8 world8 = Ok (copied, w') /\
    same_config copied mac8 /\
    macCurve copied = Some l' /\
    macCurve mac8 <> Some l' /\
    forall regionName period,
      outcome (findReduction (scenario8 (of_int 150)) copied regionName period w')
      = outcome (findReduction (scenario8 (of_int 150)) mac8 regionName period world8).
Proof.
  destruct (clone_deep_copy (scenario8 (of_int 150)) mac8 curve8 world8 mac8_owns)
    as (l' & copied & w' & Hrun & Hcfg & Hptr & _ & Hne & _ & _ & Hsame & _).
  exists l', copied, w'. repeat split; try apply Hcfg; assumption.
Defined.

(** ** Demand calibration *)

Module BuildingFacts.

Import Building.

Lemma dmax_floor_0 (x : double) :
  (0 <= x -> dmax x 0 = x) /\ (x < 0 -> dmax x 0 = 0).
Proof.
  unfold dmax. split; intros Hx; destruct (decide (x < 0)) as [Hlt | Hge];
    try reflexivity.
  - exfalso. exact (Qcle_not_lt _ _ Hx Hlt).
  - contradiction.
Qed.

(** C9.  With a floor space and a demand-function prefix other than zero,
    the calibration stores the weight
    [(max(unitDemand * floorSpace - gains, 0) / floorSpace) / prefix],
    where [gains] is sign * market price of the internal-gains market *
    fraction of the year active: the effective demand itself when it is
    not negative, and 0 when it is.  Nothing else changes. *)
Theorem adjustForCalibration_weight (scenario : Scenario)
    (variant : HeatCoolVariant) (self : BuildingHeatCoolDmdTechnology)
    (subSectorDemand : double) (regionName : string) (aSubsectorInfo : IInfo)
    (period : Z) (w : World) :
  let floorSpace := getDouble aSubsectorInfo "floorSpace" true in
  let prefix := getDemandFnPrefix self regionName period in
  let gains :=
    getInternalGainsSign
    * getPrice (getMarketplace scenario) (intGainsMarketName self)
               regionName period true
    * fractionOfYearActive self in
  let effectiveDemand := subSectorDemand * floorSpace - gains in
  floorSpace <> 0 ->
  prefix <> 0 ->
  exists self',
    adjustForCalibration scenario self subSectorDemand regionName
                         aSubsectorInfo period w = Ok (self', w) /\
    (0 <= effectiveDemand ->
       shrwts self' = effectiveDemand / floorSpace / prefix) /\
    (effectiveDemand < 0 -> shrwts self' = 0 / floorSpace / prefix) /\
    aveInsulation self' = aveInsulation self /\
    floorToSurfaceArea self' = floorToSurfaceArea self /\
    fractionOfYearActive self' = fractionOfYearActive self /\
    intGainsMarketName self' = intGainsMarketName self.
Proof.
  intros floorSpace prefix gains effectiveDemand Hfloor Hprefix.
  eexists. split.
  - unfold adjustForCalibration, bind, ddiv.
    fold floorSpace. fold prefix.
    destruct (decide (floorSpace = 0)); [contradiction |].
    unfold ret at 1.
    destruct (decide (prefix = 0)); [contradiction |].
    reflexivity.
  - simpl. unfold getEffectiveInternalGains.
    fold floorSpace. fold gains. fold effectiveDemand. fold prefix.
    destruct (dmax_floor_0 effectiveDemand) as [Hpos Hneg].
    split; [intros H; rewrite (Hpos H); reflexivity |].
    split; [intros H; rewrite (Hneg H); reflexivity |].
    repeat split.
Qed.

(** Unit demand 1 on 100 of floor space with gains 40 * 1/2 = 20 leaves an
    effective demand of 80, hence the weight (80 / 100) / 10. *)
Lemma adjustForCalibration_weight_witness :
  exists self',
    adjustForCalibration scenario_gains (variant := heating) office_heating 1
                         "USA" office_info 2 world8 = Ok (self', world8) /\
    shrwts self' = Q2Qc (2 # 25).
Proof.
  destruct (adjustForCalibration_weight scenario_gains heating office_heating 1
              "USA" office_info 2 world8)
    as (self' & Hrun & Hpos & _); [discriminate | discriminate |].
  exists self'. split; [exact Hrun |].
  rewrite Hpos; [apply Qc_is_canon; reflexivity | vm_compute; discriminate].
Defined.

End BuildingFacts.

(** * Further properties of GhgMAC *)

(** ** The pipeline with the adjustments switched off *)

Lemma DBL_MAX_negative : - DBL_MAX < 0.
Proof. vm_compute. reflexivity. Qed.

Lemma nonneg_not_sentinel (y : double) : 0 <= y -> y <> - DBL_MAX.
Proof.
  intros Hy ->. exact (Qcle_not_lt _ _ Hy DBL_MAX_negative).
Qed.

Lemma dmin_same (a : double) : dmin a a = a.
Proof. apply dmin_below, Qcle_refl. Qed.

(** X1.  With fuel shift, cost reduction and cap switched off
    ([fuelShiftRange], [costReductionRate] and [finalReduction] 0, the
    constructor's values) on a curve that answers and is not negative at
    its largest x, [findReduction] is the curve value at the market price
    clamped from above (0 under [noBelowZero] at a negative price) times
    the phase-in multiplier; a missing market counts as price 0; store and
    log stay as they are. *)
Theorem findReduction_plain (scenario : Scenario) (self : GhgMAC)
    (curve : Curve) (w : World) (regionName : string) (period : Z) :
  let marketplace := getMarketplace scenario in
  let marketPrice := getPrice marketplace "CO2" regionName period false in
  let price :=
    if decide (marketPrice = NO_MARKET_PRICE marketplace) then 0
    else marketPrice in
  owns w self curve ->
  fuelShiftRange self = 0 ->
  costReductionRate self = 0 ->
  finalReduction self = 0 ->
  getY curve (dmin price (getMaxX curve)) <> - DBL_MAX ->
  0 <= getY curve (getMaxX curve) ->
  findReduction scenario self regionName period w
  = Ok ((if decide (noBelowZero self = true /\ price < 0) then 0
         else getY curve (dmin price (getMaxX curve)))
        * adjustPhaseIn self period, w).
Proof.
  intros marketplace marketPrice price Howns Hshift Hrate Hfinal Hy Hmax.
  pose proof (reductionAfterPhaseIn_plain scenario self curve w regionName period)
    as Hpre.
  cbv zeta in Hpre. fold marketplace in Hpre. fold marketPrice in Hpre.
  fold price in Hpre. rewrite (Qcmult_1_r price), dmin_same in Hpre.
  specialize (Hpre Howns Hshift Hrate Hy (nonneg_not_sentinel _ Hmax)).
  apply (findReduction_uncapped _ _ _ _ _ _ _ _ Hpre).
  intros [Hlt _]. rewrite Hfinal in Hlt. exact (Qcle_not_lt _ _ Hmax Hlt).
Qed.

Lemma findReduction_plain_witness :
  findReduction (scenario8 (of_int 150)) mac8 "USA" 2 world8
  = Ok (getY curve8 (dmin (of_int 150) (getMaxX curve8)) * adjustPhaseIn mac8 2,
        world8).
Proof.
  apply (findReduction_plain (scenario8 (of_int 150)) mac8 curve8 world8 "USA" 2).
  - exact mac8_owns.
  - reflexivity.
  - reflexivity.
  - reflexivity.
  - vm_compute. discriminate.
  - vm_compute. discriminate.
Defined.

(** X2.  On a curve whose [getY] fails at every price, with the adjustments
    switched off, [findReduction] returns 0 as a normal result and writes
    the ERROR line of [getMACValue] twice: once for the price and once for
    the lookup at the largest x. *)
Theorem findReduction_failing_curve (scenario : Scenario) (self : GhgMAC)
    (curve : Curve) (w : World) (regionName : string) (period : Z) :
  owns w self curve ->
  (forall x, getY curve x = - DBL_MAX) ->
  fuelShiftRange self = 0 ->
  costReductionRate self = 0 ->
  finalReduction self = 0 ->
  findReduction scenario self regionName period w
  = Ok (0, {| heap := heap w; log := log w ++ [macError; macError] |}).
Proof.
  intros Howns Hfail Hshift Hrate Hfinal.
  assert (Hpre : reductionAfterPhaseIn scenario self regionName period w
                 = Ok ((0 * adjustPhaseIn self period, 0),
                       logged (logged w macError) macError)).
  { unfold reductionAfterPhaseIn. rewrite Hshift, Hrate.
    destruct (decide (0 <> 0)) as [Hne | _]; [congruence |].
    unfold bind at 1, ret at 1.
    unfold bind at 1. rewrite shiftCostReduction_zero_rate.
    unfold bind at 1. rewrite (getMACValue_run self curve w Howns).
    destruct (decide (getY curve _ = _)) as [_ | Hgood];
      [| exfalso; apply Hgood, Hfail].
    pose proof (owns_logged w self curve macError Howns) as Howns1.
    unfold bind at 1. rewrite (deref_owns _ _ _ Howns1).
    unfold bind. rewrite (getMACValue_run self curve _ Howns1).
    destruct (decide (getY curve _ = _)) as [_ | Hgood];
      [| exfalso; apply Hgood, Hfail].
    unfold ret. destruct (decide (noBelowZero self = true /\ _)); reflexivity. }
  rewrite (findReduction_uncapped _ _ _ _ _ _ _ _ Hpre).
  - rewrite Qcmult_0_l. unfold logged. simpl. rewrite <- app_assoc. reflexivity.
  - intros [Hlt _]. rewrite Hfinal in Hlt. exact (Qclt_not_eq _ _ Hlt eq_refl).
Qed.

Lemma findReduction_failing_curve_witness :
  findReduction (scenario8 (of_int 150)) mac8 "USA" 2 world_empty
  = Ok (0, {| heap := heap world_empty; log := [macError; macError] |}).
Proof.
  apply (findReduction_failing_curve (scenario8 (of_int 150)) mac8
           (PointSetCurve []) world_empty "USA" 2).
  - exists 1%positive. split; reflexivity.
  - intros x. reflexivity.
  - reflexivity.
  - reflexivity.
  - reflexivity.
Defined.

(** ** What a call leaves behind *)

Lemma shiftCostReduction_effect (scenario : Scenario) (self : GhgMAC)
    (period : Z) (rate : double) (w : World) :
  (exists factor, shiftCostReduction scenario self period rate w = Ok (factor, w))
  \/ shiftCostReduction scenario self period rate w = Fault NotFinite.
Proof.
  unfold shiftCostReduction.
  destruct (decide (rate <> 0)); [| left; eexists; reflexivity].
  destruct (decide (0 < _)%Z); [| left; eexists; reflexivity].
  unfold ddiv. destruct (decide _); [right | left; eexists]; reflexivity.
Qed.

Lemma adjustTechCh_effect (self : GhgMAC) (period finalReductionPeriod : Z)
    (maxReduction : double) (w : World) :
  (exists cap, adjustTechCh self period finalReductionPeriod maxReduction w
               = Ok (cap, w))
  \/ adjustTechCh self period finalReductionPeriod maxReduction w = Fault NotFinite
  \/ adjustTechCh self period finalReductionPeriod maxReduction w
     = Fault IntDivByZero.
Proof.
  unfold adjustTechCh, bind, ddiv.
  destruct (decide (finalReduction self = 0)); [right; left; reflexivity |].
  unfold ret at 1.
  destruct (decide (period <= finalReductionPeriod)%Z);
    [| left; eexists; reflexivity].
  unfold idiv. destruct (decide _);
    [right; right; reflexivity | left; eexists; reflexivity].
Qed.

Lemma after_errors_0 (w : World) : after_errors w 0 w.
Proof. split; [reflexivity |]. simpl. symmetry. apply app_nil_r. Qed.

Lemma after_errors_logged (w w' : World) (k : nat) :
  after_errors w k w' -> after_errors w (S k) (logged w' macError).
Proof.
  intros [Hheap Hlog]. split; [exact Hheap |]. simpl. rewrite Hlog.
  rewrite <- app_assoc. f_equal.
  change (replicate k macError ++ [macError] = replicate (S k) macError).
  rewrite replicate_S_end. reflexivity.
Qed.

Lemma owns_after_errors (w w' : World) (k : nat) (self : GhgMAC) (curve : Curve) :
  owns w self curve -> after_errors w k w' -> owns w' self curve.
Proof.
  intros (l & Hp & Hl) [Hheap _]. exists l. rewrite Hheap. split; assumption.
Qed.

Lemma getMACValue_effect (self : GhgMAC) (curve : Curve) (w0 w : World)
    (k : nat) (price : double) :
  owns w0 self curve -> after_errors w0 k w ->
  exists y w' k', getMACValue self price w = Ok (y, w') /\
                  after_errors w0 k' w' /\ (k <= k' <= S k)%nat.
Proof.
  intros Howns Hafter.
  rewrite (getMACValue_run self curve w (owns_after_errors _ _ _ _ _ Howns Hafter)).
  destruct (decide _).
  - exists 0, (logged w macError), (S k).
    split; [reflexivity |]. split; [apply after_errors_logged, Hafter | lia].
  - eexists _, w, k. split; [reflexivity |]. split; [exact Hafter | lia].
Qed.

(** X3.  A call of [findReduction] on an object that owns a live curve
    leaves the store of curves as it was and adds at most two lines to the
    log, each the ERROR line of [getMACValue]; when it does not return, it
    is by a division by zero, never by the curve pointer. *)
Theorem findReduction_effect (scenario : Scenario) (self : GhgMAC)
    (curve : Curve) (w : World) (regionName : string) (period : Z) :
  owns w self curve ->
  match findReduction scenario self regionName period w with
  | Ok (_, w') =>
      heap w' = heap w /\
      exists k, (k <= 2)%nat /\ log w' = log w ++ replicate k macError
  | Fault f => f = NotFinite \/ f = IntDivByZero
  end.
Proof.
  intros Howns. unfold findReduction, bind.
  set (shifted := if decide (fuelShiftRange self <> 0) then _ else _).
  assert (Hshift : (exists p, shifted w = Ok (p, w)) \/ shifted w = Fault NotFinite).
  { subst shifted. destruct (decide _); [| left; eexists; reflexivity].
    rewrite (shiftNatGas_run scenario self curve w Howns).
    destruct (decide _); [right | left; eexists]; reflexivity. }
  clearbody shifted. destruct Hshift as [(p & ->) | ->]; [| left; reflexivity].
  destruct (shiftCostReduction_effect scenario self period
              (costReductionRate self) w) as [(d & ->) | ->];
    [| left; reflexivity].
  destruct (getMACValue_effect self curve w w 0 (p * d) Howns (after_errors_0 w))
    as (y & w1 & k1 & -> & Hafter1 & Hk1).
  rewrite (deref_owns _ _ _ (owns_after_errors _ _ _ _ _ Howns Hafter1)).
  destruct (getMACValue_effect self curve w w1 k1 (getMaxX curve) Howns Hafter1)
    as (m & w2 & k2 & -> & [Hheap2 Hlog2] & Hk2).
  destruct (decide (m < finalReduction self /\ _)).
  - destruct (adjustTechCh_effect self period
                (getper_to_yr (getModeltime scenario) (finalReductionYear self))
                m w2) as [(cap & ->) | [-> | ->]]; [| left | right]; try reflexivity.
    split; [exact Hheap2 |]. exists k2. split; [lia | exact Hlog2].
  - split; [exact Hheap2 |]. exists k2. split; [lia | exact Hlog2].
Qed.

Lemma findReduction_effect_witness :
  match findReduction (scenario8 (of_int 150)) mac8 "USA" 2 world8 with
  | Ok (_, w') =>
      heap w' = heap world8 /\
      exists k, (k <= 2)%nat /\ log w' = log world8 ++ replicate k macError
  | Fault f => f = NotFinite \/ f = IntDivByZero
  end.
Proof.
  apply (findReduction_effect (scenario8 (of_int 150)) mac8 curve8 world8 "USA" 2).
  exact mac8_owns.
Defined.

(** ** The cap multiplier under the guard of findReduction *)

Lemma of_int_1 : of_int 1 = 1.
Proof. apply Z2Qc_inj_1. Qed.

(** X4.  With [finalReduction] other than 0, the cap multiplier is
    [maxReduction / finalReduction] after the final period; up to the final
    period it is a division by zero when the final period is 2, the ramp
    [change * (period - 2)] when it is 3, and 0 from 4 on, because
    [1 / ( finalReductionPeriod - 2 )] is an integer quotient. *)
Theorem adjustTechCh_cases (self : GhgMAC) (period finalReductionPeriod : Z)
    (maxReduction : double) (w : World) :
  finalReduction self <> 0 ->
  (1 < finalReductionPeriod)%Z ->
  adjustTechCh self period finalReductionPeriod maxReduction w
  = if decide (period <= finalReductionPeriod)%Z
    then if decide (finalReductionPeriod = 2)%Z then Fault IntDivByZero
         else if decide (finalReductionPeriod = 3)%Z
              then Ok (maxReduction / finalReduction self * of_int (period - 2), w)
              else Ok (0, w)
    else Ok (maxReduction / finalReduction self, w).
Proof.
  intros Hfinal Hguard. rewrite (adjustTechCh_run self w Hfinal).
  destruct (decide (period <= finalReductionPeriod)%Z); [| reflexivity].
  destruct (decide (finalReductionPeriod - 2 = 0)%Z),
           (decide (finalReductionPeriod = 2)%Z); try lia; [reflexivity |].
  destruct (decide (finalReductionPeriod = 3)%Z) as [-> | Hne].
  - change (3 - 2)%Z with 1%Z. change (Z.quot 1 1) with 1%Z.
    rewrite of_int_1, Qcmult_1_r. reflexivity.
  - rewrite Z.quot_small by lia. rewrite of_int_0.
    do 2 f_equal. ring.
Qed.

Lemma adjustTechCh_cases_witness :
  adjustTechCh mac_cap 3 3 (Q2Qc (1 # 2)) world8
  = Ok (Q2Qc (1 # 2) / finalReduction mac_cap * of_int (3 - 2), world8).
Proof.
  apply (adjustTechCh_cases mac_cap 3 3 (Q2Qc (1 # 2)) world8).
  - discriminate.
  - lia.
Defined.

Lemma Qcdiv_change_bounds (maxReduction finalReduction : double) :
  0 <= maxReduction -> maxReduction < finalReduction ->
  0 <= maxReduction / finalReduction /\ maxReduction / finalReduction < 1.
Proof.
  intros Hm Hlt.
  assert (Hf : 0 < finalReduction) by exact (Qcle_lt_trans _ _ _ Hm Hlt).
  split; [apply Qcdiv_nonneg; assumption | apply Qcdiv_lt_1; assumption].
Qed.

(** X5.  Whenever [findReduction] applies the cap to a curve that is not
    negative at its largest x ([0 <= maxReduction < finalReduction],
    final period above 1 and not 2), the multiplier is below 1: the cap
    never raises a non-negative reduction. *)
Theorem adjustTechCh_never_raises (self : GhgMAC)
    (period finalReductionPeriod : Z) (maxReduction : double) (w : World) :
  0 <= maxReduction ->
  maxReduction < finalReduction self ->
  (1 < finalReductionPeriod)%Z ->
  finalReductionPeriod <> 2%Z ->
  exists cap,
    adjustTechCh self period finalReductionPeriod maxReduction w = Ok (cap, w) /\
    cap < 1 /\
    forall reduction, 0 <= reduction -> reduction * cap <= reduction.
Proof.
  intros Hm Hlt Hguard Hne2.
  destruct (Qcdiv_change_bounds _ _ Hm Hlt) as [Hc0 Hc1].
  assert (Hfinal : finalReduction self <> 0).
  { apply Qc_pos_neq_0. exact (Qcle_lt_trans _ _ _ Hm Hlt). }
  assert (Hcap : exists cap,
    adjustTechCh self period finalReductionPeriod maxReduction w = Ok (cap, w)
    /\ cap < 1).
  { rewrite (adjustTechCh_cases self _ _ _ w Hfinal Hguard).
    destruct (decide (period <= finalReductionPeriod)%Z);
      [| eexists; split; [reflexivity | exact Hc1]].
    destruct (decide (finalReductionPeriod = 2)%Z); [contradiction |].
    destruct (decide (finalReductionPeriod = 3)%Z) as [-> | _];
      [| eexists; split; [reflexivity | exact Qc_0_lt_1]].
    eexists. split; [reflexivity |].
    destruct (Z.eq_dec period 3%Z) as [-> | Hp].
    - change (3 - 2)%Z with 1%Z. rewrite of_int_1, Qcmult_1_r. exact Hc1.
    - apply Qcle_lt_trans with 0; [| exact Qc_0_lt_1].
      rewrite <- (Qcmult_0_r (maxReduction / finalReduction self)).
      apply Qcmult_le_mono_nonneg_l; [exact Hc0 |].
      rewrite <- of_int_0. apply of_int_le. lia. }
  destruct Hcap as (cap & Hrun & Hcap1). exists cap.
  split; [exact Hrun |]. split; [exact Hcap1 |].
  intros reduction Hr. rewrite <- (Qcmult_1_r reduction) at 2.
  apply Qcmult_le_mono_nonneg_l; [exact Hr | apply Qclt_le_weak, Hcap1].
Qed.

Lemma adjustTechCh_never_raises_witness :
  exists cap,
    adjustTechCh mac_cap 9 8 (Q2Qc (9 # 10)) world8 = Ok (cap, world8) /\
    cap < 1 /\
    forall reduction, 0 <= reduction -> reduction * cap <= reduction.
Proof.
  apply (adjustTechCh_never_raises mac_cap 9 8 (Q2Qc (9 # 10)) world8).
  - vm_compute. discriminate.
  - reflexivity.
  - lia.
  - lia.
Defined.

(** ** The fuel shift at the edges *)

(** X6.  On a curve whose smallest and largest x coincide (a single
    point), the fuel shift divides by the width of the domain, which is 0,
    at every price. *)
Theorem shiftNatGas_degenerate_domain (scenario : Scenario) (self : GhgMAC)
    (curve : Curve) (w : World) (period : Z) (regionName : string)
    (carbonPrice : double) :
  owns w self curve ->
  getMaxX curve = getMinX curve ->
  shiftNatGas scenario self period regionName carbonPrice w = Fault NotFinite.
Proof.
  intros Howns Heq. rewrite (shiftNatGas_run scenario self curve w Howns).
  destruct (decide _) as [_ | Hne]; [reflexivity |].
  exfalso. apply Hne. rewrite Heq. unfold Qcminus. apply Qcplus_opp_r.
Qed.

Lemma shiftNatGas_degenerate_domain_witness :
  shiftNatGas (scenario_gas 0) mac_gas 2 "USA" (of_int 50) world_point
  = Fault NotFinite.
Proof.
  apply (shiftNatGas_degenerate_domain (scenario_gas 0) mac_gas
           (PointSetCurve [(of_int 100, Q2Qc (1 # 2))]) world_point).
  - exists 1%positive. split; reflexivity.
  - reflexivity.
Defined.

(** X7.  On a curve with [getMinX < getMaxX] the fuel shift returns the
    carbon price itself when it lies in the domain, [getMinX] below it and
    [getMaxX] above it, whatever the fuel prices, the fuel name and
    [fuelShiftRange] are. *)
Theorem shiftNatGas_clamp_only (scenario : Scenario) (self : GhgMAC)
    (curve : Curve) (w : World) (period : Z) (regionName : string)
    (carbonPrice : double) :
  owns w self curve ->
  getMinX curve < getMaxX curve ->
  exists newCarbonPrice,
    shiftNatGas scenario self period regionName carbonPrice w
      = Ok (newCarbonPrice, w) /\
    (getMinX curve <= carbonPrice <= getMaxX curve ->
       newCarbonPrice = carbonPrice) /\
    (carbonPrice < getMinX curve -> newCarbonPrice = getMinX curve) /\
    (getMaxX curve < carbonPrice -> newCarbonPrice = getMaxX curve).
Proof.
  intros Howns Hdom. eexists. split.
  - apply (shiftNatGas_unshifted scenario self curve w Howns).
    intros Heq. rewrite Heq in Hdom. exact (Qclt_not_eq _ _ Hdom eq_refl).
  - unfold dmax. split; [| split].
    + intros [Hlo Hhi]. destruct (decide _) as [Hlt | _].
      * exfalso. exact (Qcle_not_lt _ _ Hlo Hlt).
      * apply dmin_below, Hhi.
    + intros Hlt. destruct (decide _); [| contradiction].
      apply dmin_below, Qclt_le_weak, Hdom.
    + intros Hgt. destruct (decide _) as [Hlt | _].
      * exfalso. exact (Qclt_not_le _ _ (Qclt_trans _ _ _ Hlt Hdom)
                          (Qclt_le_weak _ _ Hgt)).
      * apply dmin_above, Qclt_le_weak, Hgt.
Qed.

Lemma shiftNatGas_clamp_only_witness :
  exists newCarbonPrice,
    shiftNatGas (scenario_gas 0) mac_gas 2 "USA" (of_int 250) world8
      = Ok (newCarbonPrice, world8) /\
    newCarbonPrice = getMaxX curve8.
Proof.
  destruct (shiftNatGas_clamp_only (scenario_gas 0) mac_gas curve8 world8 2
              "USA" (of_int 250)) as (p & Hrun & _ & _ & Habove).
  - exists 1%positive. split; reflexivity.
  - reflexivity.
  - exists p. split; [exact Hrun |]. apply Habove. reflexivity.
Defined.

(** ** Cost reduction at the edges *)




(** X9.  A rate of -1 makes [1 + costReductionRate] zero: in every period
    after [baseCostYear] the decay divides by zero. *)
Theorem shiftCostReduction_rate_minus_one (scenario : Scenario) (self : GhgMAC)
    (period : Z) (w : World) :
  (0 < numberYears scenario self period)%Z ->
  shiftCostReduction scenario self period (- 1) w = Fault NotFinite.
Proof.
  intros Hy. unfold shiftCostReduction. fold (numberYears scenario self period).
  destruct (decide (- 1 <> 0)) as [_ | Hz]; [| exfalso; apply Hz; discriminate].
  destruct (decide (0 < _)%Z); [| contradiction].
  unfold ddiv, pow. replace (1 + - 1) with (0 : double) by ring.
  rewrite Qcpower_0 by lia.
  destruct (decide (0 = 0)); [reflexivity | congruence].
Qed.

Lemma shiftCostReduction_rate_minus_one_witness :
  shiftCostReduction (scenario8 0) mac8 2 (- 1) world8 = Fault NotFinite.
Proof.
  apply (shiftCostReduction_rate_minus_one (scenario8 0) mac8 2 world8).
  reflexivity.
Defined.

(** ** Objects without a curve *)

(** X10.  The default constructor leaves the curve pointer null.  Until
    [XMLParse] has run, [initCalc], [getMACValue], [findReduction] and
    [clone] all dereference it, in every scenario and store. *)
Theorem default_object_has_no_curve (scenario : Scenario) (w : World)
    (ghgName regionName : string) (period : Z) (price : double) :
  initCalc (GhgMAC_default scenario) ghgName w = Fault NullPointer /\
  getMACValue (GhgMAC_default scenario) price w = Fault NullPointer /\
  findReduction scenario (GhgMAC_default scenario) regionName period w
    = Fault NullPointer /\
  clone (GhgMAC_default scenario) w = Fault NullPointer.
Proof.
  split; [reflexivity |]. split; [reflexivity |]. split; [| reflexivity].
  unfold findReduction. simpl fuelShiftRange. simpl costReductionRate.
  destruct (decide (0 <> 0)) as [Hne | _]; [congruence |].
  unfold bind at 1, ret at 1.
  unfold bind at 1. rewrite shiftCostReduction_zero_rate.
  reflexivity.
Qed.

(** ** Copying onto an object that has a curve *)

(** X11.  [copy] onto an object whose curve pointer is null or live, from an
    object that owns a curve: the target keeps its [name], takes the eight
    configuration fields of the source, and owns a copy of the source's
    curve at a location that was free; the curve it owned before is
    deleted, every other curve stays, the log is untouched, and
    [findReduction] on the target now gives what it gave on the source.
    This holds also when target and source share their curve. *)
Theorem copy_replaces_curve (self other : GhgMAC) (curve : Curve) (w : World) :
  owns w other curve ->
  (forall old, macCurve self = Some old -> is_Some (heap w !! old)) ->
  exists (l' : loc) (self' : GhgMAC) (w' : World),
    copy self other w = Ok (self', w') /\
    name self' = name self /\
    same_config self' other /\
    macCurve self' = Some l' /\
    heap w !! l' = None /\
    heap w' !! l' = Some curve /\
    (forall old, macCurve self = Some old -> heap w' !! old = None) /\
    (forall l, macCurve self <> Some l -> l <> l' -> heap w' !! l = heap w !! l) /\
    log w' = log w /\
    forall scenario regionName period,
      outcome (findReduction scenario self' regionName period w')
      = outcome (findReduction scenario other regionName period w).
Proof.
  intros Howns Hlive. pose proof Howns as (l2 & Hp2 & Hl2).
  pose proof (fresh_unused w) as Hfresh.
  set (l' := fresh (dom (heap w))) in *.
  assert (Hold : forall old, macCurve self = Some old -> old <> l').
  { intros old Hp Heq. destruct (Hlive old Hp) as [c Hc].
    rewrite Heq, Hfresh in Hc. discriminate. }
  pose (w' := {| heap := match macCurve self with
                         | Some old => delete old (<[l' := curve]> (heap w))
                         | None => <[l' := curve]> (heap w)
                         end;
                 log := log w |}).
  assert (Hnew : heap w' !! l' = Some curve).
  { unfold w'. simpl. destruct (macCurve self) as [old |] eqn:Hp.
    - rewrite lookup_delete_ne by (apply Hold; reflexivity).
      apply lookup_insert_eq.
    - apply lookup_insert_eq. }
  eexists l', _, w'. split.
  { unfold copy, Curve_clone, bind. rewrite (deref_owns _ _ _ Howns).
    unfold alloc, auto_ptr_reset, w'. fold l'. simpl.
    destruct (macCurve self); reflexivity. }
  split; [reflexivity |]. split; [repeat split |]. split; [reflexivity |].
  split; [exact Hfresh |]. split; [exact Hnew |]. split.
  { intros old Hp. unfold w'. simpl. rewrite Hp. apply lookup_delete_eq. }
  split.
  { intros l Hnot Hne. unfold w'. simpl.
    destruct (macCurve self) as [old |] eqn:Hp.
    - rewrite lookup_delete_ne by (intros ->; apply Hnot; reflexivity).
      apply lookup_insert_ne. intros Heq. apply Hne. symmetry. exact Heq.
    - apply lookup_insert_ne. intros Heq. apply Hne. symmetry. exact Heq. }
  split; [reflexivity |].
  intros scenario regionName period.
  apply (rel_outcome l' l2).
  apply rel_findReduction; [reflexivity | exact Hp2 | repeat split |].
  split; [reflexivity |]. exists curve. split; [exact Hnew | exact Hl2].
Qed.

Lemma copy_replaces_curve_witness :
  exists (l' : loc) (self' : GhgMAC) (w' : World),
    copy mac_other mac8 world_two = Ok (self', w') /\
    name self' = "N2O"%string /\
    same_config self' mac8 /\
    heap w' !! l' = Some curve8 /\
    heap w' !! 2%positive = None /\
    heap w' !! 1%positive = Some curve8.
Proof.
  destruct (copy_replaces_curve mac_other mac8 curve8 world_two)
    as (l' & self' & w' & Hrun & Hname & Hcfg & Hptr & Hfree & Hnew & Hold
        & Hrest & _).
  - exists 1%positive. split; reflexivity.
  - intros old [= <-]. eexists. reflexivity.
  - exists l', self', w'. split; [exact Hrun |]. split; [exact Hname |].
    split; [exact Hcfg |]. split; [exact Hnew |].
    split; [apply Hold; reflexivity |].
    rewrite Hrest; [reflexivity | discriminate |].
    intros <-. discriminate Hfree.
Defined.

(** ** Reading the configuration *)

Lemma from_last_named_cons {A} (g : DOMNode -> A) (x : A) (n : string)
    (d : DOMNode) (nodeList : list DOMNode) :
  from_option g x (last_named n (d :: nodeList))
  = from_option g (if decide (getNodeName d = n) then g d else x)
                (last_named n nodeList).
Proof.
  unfold last_named. rewrite filter_cons.
  destruct (decide (getNodeName d = n)); [| reflexivity].
  rewrite last_cons. destruct (last _); reflexivity.
Qed.

Lemma points_of_cons (d : DOMNode) (nodeList : list DOMNode) :
  points_of (d :: nodeList)
  = if decide (getNodeName d = "reduction"%string)
    then (getAttr_tax d, getValue_double d) :: points_of nodeList
    else points_of nodeList.
Proof.
  unfold points_of. rewrite filter_cons. destruct (decide _); reflexivity.
Qed.

Lemma warnings_of_cons (d : DOMNode) (nodeList : list DOMNode) :
  warnings_of (d :: nodeList)
  = if decide (recognised (getNodeName d)) then warnings_of nodeList
    else unrecognized (getNodeName d) :: warnings_of nodeList.
Proof.
  unfold warnings_of. rewrite filter_cons.
  destruct (decide (~ recognised _)), (decide (recognised _));
    try reflexivity; contradiction.
Qed.

Lemma recognised_names :
  Forall recognised
    [ "#text"; "phaseIn"; "costReductionRate"; "baseCostYear";
      "fuelShiftRange"; "curveShiftFuelName"; "finalReduction";
      "finalReductionYear"; "noBelowZero"; "reduction" ]%string.
Proof. apply Forall_forall. intros n Hn. exact Hn. Qed.

Ltac string_cases :=
  repeat match goal with
         | |- context [decide (?a = ?b :> string)] =>
             destruct (decide (a = b :> string));
             [try discriminate; try contradiction
             | try congruence]
         end.

Lemma XMLParse_child_run (self : GhgMAC) (pts : list (double * double))
    (d : DOMNode) (w : World) :
  exists self1,
    XMLParse_child (self, pts) d w
    = Ok ((self1,
           if decide (getNodeName d = "reduction"%string)
           then pts ++ [(getAttr_tax d, getValue_double d)] else pts),
          if decide (recognised (getNodeName d)) then w
          else {| heap := heap w;
                  log := log w ++ [unrecognized (getNodeName d)] |}) /\
    parsed_fields self self1 [d].
Proof.
  unfold XMLParse_child, parsed_fields. simpl.
  rewrite !(from_last_named_cons _ _ _ d []). unfold last_named. simpl.
  destruct (decide (recognised (getNodeName d))) as [Hrec | Hrec].
  - unfold recognised in Hrec.
    repeat (apply elem_of_cons in Hrec as [Hrec | Hrec];
            [rewrite Hrec; vm_compute;
             eexists; (split; [reflexivity | repeat split]) |]).
    inversion Hrec.
  - assert (Hno : forall n, recognised n -> getNodeName d <> n)
      by (intros n Hn Heq; apply Hrec; rewrite Heq; exact Hn).
    pose proof recognised_names as Hnames.
    repeat (apply Forall_cons in Hnames as [?%Hno Hnames]).
    string_cases. eexists. split; [reflexivity | repeat split].
Qed.

Lemma XMLParse_loop_run (nodeList : list DOMNode) :
  forall (self : GhgMAC) (pts : list (double * double)) (w : World),
  exists self',
    XMLParse_loop nodeList (self, pts) w
    = Ok ((self', pts ++ points_of nodeList),
          {| heap := heap w; log := log w ++ warnings_of nodeList |}) /\
    parsed_fields self self' nodeList.
Proof.
  induction nodeList as [| d rest IH]; intros self pts w.
  - exists self. split.
    + simpl. unfold ret. rewrite !app_nil_r. destruct w; reflexivity.
    + repeat split.
  - destruct (XMLParse_child_run self pts d w) as (self1 & Hstep & Hf1).
    set (pts1 := if decide (getNodeName d = "reduction"%string) then _ else pts) in *.
    set (w1 := if decide (recognised (getNodeName d)) then w else _) in *.
    destruct (IH self1 pts1 w1) as (self' & Hrest & Hf).
    exists self'. split.
    + simpl. unfold bind. rewrite Hstep, Hrest.
      rewrite points_of_cons, warnings_of_cons. subst pts1 w1.
      destruct (decide (getNodeName d = "reduction"%string)),
               (decide (recognised (getNodeName d)));
        simpl; rewrite <- ?app_assoc; reflexivity.
    + unfold parsed_fields in *. rewrite !from_last_named_cons.
      rewrite !(from_last_named_cons _ _ _ d []) in Hf1.
      unfold last_named in Hf1. simpl in Hf1.
      destruct Hf1 as (H1 & H2 & H3 & H4 & H5 & H6 & H7 & H8 & H9 & H10).
      destruct Hf as (G1 & G2 & G3 & G4 & G5 & G6 & G7 & G8 & G9 & G10).
      rewrite <- H3, <- H4, <- H5, <- H6, <- H7, <- H8, <- H9, <- H10.
      repeat split; try assumption; congruence.
Qed.

Section Parse.

Variable newPointSetCurve : list (double * double) -> Curve.
Variable self : GhgMAC.
Variable nodeList : list DOMNode.
Variable w : World.

Lemma XMLParse_run :
  exists self1,
    parsed_fields self self1 nodeList /\
    XMLParse newPointSetCurve self nodeList w
    = Ok (with_macCurve (Some (fresh (dom (heap w)))) self1,
          parsed_world newPointSetCurve self nodeList w).
Proof.
  destruct (XMLParse_loop_run nodeList self [] w) as (self1 & Hloop & Hf).
  exists self1. split; [exact Hf |].
  unfold XMLParse, bind. rewrite Hloop. simpl.
  destruct Hf as (_ & Hp & _). rewrite Hp. unfold parsed_world.
  destruct (macCurve self); reflexivity.
Qed.

End Parse.

(** X12.  [XMLParse] never fails.  It always installs a new curve, built
    from the "reduction" children alone, in document order, at a location
    that was free; the curve the object owned before is deleted and its
    points are not carried over; no other curve is touched. *)
Theorem XMLParse_installs_curve
    (newPointSetCurve : list (double * double) -> Curve) (self : GhgMAC)
    (nodeList : list DOMNode) (w : World) :
  (forall old, macCurve self = Some old -> is_Some (heap w !! old)) ->
  exists (l' : loc) (self' : GhgMAC) (w' : World),
    XMLParse newPointSetCurve self nodeList w = Ok (self', w') /\
    macCurve self' = Some l' /\
    heap w !! l' = None /\
    heap w' !! l'
    = Some (newPointSetCurve
              (map (fun d => (getAttr_tax d, getValue_double d))
                   (filter (fun d => getNodeName d = "reduction"%string)
                           nodeList))) /\
    (forall old, macCurve self = Some old -> heap w' !! old = None) /\
    (forall l, macCurve self <> Some l -> l <> l' -> heap w' !! l = heap w !! l).
Proof.
  intros Hlive.
  destruct (XMLParse_run newPointSetCurve self nodeList w) as (self1 & _ & Hrun).
  pose proof (fresh_unused w) as Hfresh.
  assert (Hold : forall old, macCurve self = Some old -> old <> fresh (dom (heap w))).
  { intros old Hp Heq. destruct (Hlive old Hp) as [c Hc].
    rewrite Heq, Hfresh in Hc. discriminate. }
  eexists _, _, _. split; [exact Hrun |]. split; [reflexivity |].
  split; [exact Hfresh |]. unfold parsed_world. simpl.
  split; [| split].
  - destruct (macCurve self) as [old |] eqn:Hp.
    + rewrite lookup_delete_ne by (apply Hold; reflexivity).
      apply lookup_insert_eq.
    + apply lookup_insert_eq.
  - intros old Hp. rewrite Hp. apply lookup_delete_eq.
  - intros l Hnot Hne. destruct (macCurve self) as [old |] eqn:Hp.
    + rewrite lookup_delete_ne by (intros ->; apply Hnot; reflexivity).
      apply lookup_insert_ne. intros Heq. apply Hne. symmetry. exact Heq.
    + apply lookup_insert_ne. intros Heq. apply Hne. symmetry. exact Heq.
Qed.

Lemma XMLParse_installs_curve_witness :
  exists (l' : loc) (self' : GhgMAC) (w' : World),
    XMLParse PointSetCurve mac8 nodes_example world8 = Ok (self', w') /\
    macCurve self' = Some l' /\
    heap w' !! l' = Some (PointSetCurve [(0, 0); (of_int 100, Q2Qc (1 # 2))]) /\
    heap w' !! 1%positive = None.
Proof.
  destruct (XMLParse_installs_curve PointSetCurve mac8 nodes_example world8)
    as (l' & self' & w' & Hrun & Hptr & _ & Hnew & Hold & _).
  - intros old [= <-]. eexists. reflexivity.
  - exists l', self', w'. split; [exact Hrun |]. split; [exact Hptr |].
    split; [exact Hnew |]. apply Hold. reflexivity.
Defined.

(** X13.  After [XMLParse] each configuration field holds the value of the
    last child of its name and keeps its old value when there is no such
    child; [name] is never read from the children. *)
Theorem XMLParse_last_wins
    (newPointSetCurve : list (double * double) -> Curve) (self : GhgMAC)
    (nodeList : list DOMNode) (w : World) :
  exists (self' : GhgMAC) (w' : World),
    XMLParse newPointSetCurve self nodeList w = Ok (self', w') /\
    name self' = name self /\
    phaseIn self'
      = from_option getValue_double (phaseIn self)
                    (last_named "phaseIn" nodeList) /\
    costReductionRate self'
      = from_option getValue_double (costReductionRate self)
                    (last_named "costReductionRate" nodeList) /\
    baseCostYear self'
      = from_option getValue_int (baseCostYear self)
                    (last_named "baseCostYear" nodeList) /\
    fuelShiftRange self'
      = from_option getValue_double (fuelShiftRange self)
                    (last_named "fuelShiftRange" nodeList) /\
    curveShiftFuelName self'
      = from_option getValue_string (curveShiftFuelName self)
                    (last_named "curveShiftFuelName" nodeList) /\
    finalReduction self'
      = from_option getValue_double (finalReduction self)
                    (last_named "finalReduction" nodeList) /\
    finalReductionYear self'
      = from_option getValue_int (finalReductionYear self)
                    (last_named "finalReductionYear" nodeList) /\
    noBelowZero self'
      = from_option getValue_bool (noBelowZero self)
                    (last_named "noBelowZero" nodeList).
Proof.
  destruct (XMLParse_run newPointSetCurve self nodeList w) as (self1 & Hf & Hrun).
  eexists _, _. split; [exact Hrun |].
  destruct Hf as (H1 & _ & H3). split; [exact H1 | exact H3].
Qed.

(** X14.  [XMLParse] writes one WARNING line for each child whose name has
    no branch, in document order, and nothing else: "#text" and the nine
    known names are silent, and an unknown child does not stop the
    reading. *)
Theorem XMLParse_warnings
    (newPointSetCurve : list (double * double) -> Curve) (self : GhgMAC)
    (nodeList : list DOMNode) (w : World) :
  exists (self' : GhgMAC) (w' : World),
    XMLParse newPointSetCurve self nodeList w = Ok (self', w') /\
    log w'
    = log w
      ++ map (fun d =>
                (WARNING,
                 ("Unrecognized text string: " ++ getNodeName d
                  ++ " found while parsing MAC.")%string))
             (filter (fun d => ~ recognised (getNodeName d)) nodeList) /\
    (Forall (fun d => recognised (getNodeName d)) nodeList -> log w' = log w).
Proof.
  destruct (XMLParse_run newPointSetCurve self nodeList w) as (self1 & _ & Hrun).
  eexists _, _. split; [exact Hrun |]. split; [reflexivity |].
  intros Hall. simpl. unfold warnings_of.
  replace (filter _ nodeList) with (@nil DOMNode); [apply app_nil_r |].
  symmetry. clear Hrun.
  induction Hall as [| d rest Hd _ IH]; [reflexivity |].
  rewrite filter_cons. destruct (decide _); [contradiction | exact IH].
Qed.

Lemma XMLParse_warnings_witness :
  exists (self' : GhgMAC) (w' : World),
    XMLParse PointSetCurve mac8 [node "phaseIn" (of_int 3); node "#text" 0]
             world8 = Ok (self', w') /\
    log w' = log world8.
Proof.
  destruct (XMLParse_warnings PointSetCurve mac8
              [node "phaseIn" (of_int 3); node "#text" 0] world8)
    as (self' & w' & Hrun & _ & Hquiet).
  exists self', w'. split; [exact Hrun |]. apply Hquiet.
  pose proof recognised_names as Hnames.
  repeat (apply Forall_cons in Hnames as [? Hnames]).
  repeat constructor; assumption.
Defined.

(** X15.  A MAC node without "reduction" children still gets a curve, the
    one built from no points.  When that curve reports [-DBL_MAX] as its
    largest x, the following [initCalc] writes the ERROR line that the MAC
    appears to have no data, and goes on. *)
Theorem XMLParse_without_points
    (newPointSetCurve : list (double * double) -> Curve) (self : GhgMAC)
    (nodeList : list DOMNode) (w : World) (ghgName : string) :
  (forall old, macCurve self = Some old -> is_Some (heap w !! old)) ->
  Forall (fun d => getNodeName d <> "reduction"%string) nodeList ->
  getMaxX (newPointSetCurve []) = - DBL_MAX ->
  exists (self' : GhgMAC) (w' : World),
    XMLParse newPointSetCurve self nodeList w = Ok (self', w') /\
    owns w' self' (newPointSetCurve []) /\
    initCalc self' ghgName w'
    = Ok (tt, {| heap := heap w';
                 log := log w'
                        ++ [(ERROR,
                             (" MAC for gas " ++ ghgName
                              ++ " appears to have no data. ")%string)] |}).
Proof.
  intros Hlive Hnone Hmax.
  assert (Hpts : filter (fun d => getNodeName d = "reduction"%string) nodeList = []).
  { induction Hnone as [| d rest Hd _ IH]; [reflexivity |].
    rewrite filter_cons. destruct (decide _); [contradiction | exact IH]. }
  destruct (XMLParse_installs_curve newPointSetCurve self nodeList w Hlive)
    as (l' & self' & w' & Hrun & Hptr & _ & Hnew & _).
  rewrite Hpts in Hnew. simpl in Hnew.
  assert (Howns : owns w' self' (newPointSetCurve [])).
  { exists l'. split; assumption. }
  exists self', w'. split; [exact Hrun |]. split; [exact Howns |].
  unfold initCalc, bind. rewrite (deref_owns _ _ _ Howns).
  destruct (decide _); [reflexivity | contradiction].
Qed.

Lemma XMLParse_without_points_witness :
  exists (self' : GhgMAC) (w' : World),
    XMLParse PointSetCurve mac8 [node "phaseIn" (of_int 3)] world8 = Ok (self', w') /\
    initCalc self' "CH4" w'
    = Ok (tt, {| heap := heap w';
                 log := log w'
                        ++ [(ERROR,
                             " MAC for gas CH4 appears to have no data. "%string)] |}).
Proof.
  destruct (XMLParse_without_points PointSetCurve mac8
              [node "phaseIn" (of_int 3)] world8 "CH4")
    as (self' & w' & Hrun & _ & Hinit).
  - intros old [= <-]. eexists. reflexivity.
  - repeat constructor. discriminate.
  - reflexivity.
  - exists self', w'. split; [exact Hrun | exact Hinit].
Defined.

(** ** Writing the configuration *)

Lemma writeReductions_map (pairs : list (double * double)) :
  forall attrs : gmap string double,
  attrs = empty \/ (exists x, attrs = {[ "tax"%string := x ]}) ->
  writeReductions pairs attrs = map reduction_element pairs.
Proof.
  induction pairs as [| p rest IH]; intros attrs Hattrs; [reflexivity |].
  assert (Hins : <["tax"%string := p.1]> attrs
                 = ({[ "tax"%string := p.1 ]} : gmap string double)).
  { destruct Hattrs as [-> | (x & ->)].
    - apply insert_empty.
    - apply insert_singleton_eq. }
  simpl. rewrite Hins. f_equal. apply IH. right. eexists. reflexivity.
Qed.

Lemma reduction_elements_recognised (pairs : list (double * double)) :
  Forall (fun c => forall n, elementName_of c = Some n ->
                   recognised n /\ n <> "curveShiftFuelName"%string)
         (map reduction_element pairs).
Proof.
  apply Forall_forall. intros c Hc. apply list_elem_of_fmap in Hc as (p & -> & _).
  intros n [= <-]. split; [| discriminate].
  pose proof recognised_names as Hnames.
  repeat (apply Forall_cons in Hnames as [? Hnames]). assumption.
Qed.

(** X16.  What [toInputXML] writes: for every point of the curve, in the
    order of [getSortedPairs], one "reduction" element with the x as its
    "tax" attribute and the y as its value.  Every element has a name that
    [XMLParse] has a branch for, so reading the output back gives no
    warning; but none is "curveShiftFuelName": the fuel name that
    [XMLParse] reads and [shiftNatGas] uses is never written. *)
Theorem toInputXML_elements (scenario : Scenario) (self : GhgMAC)
    (curve : Curve) (w : World) :
  owns w self curve ->
  exists calls,
    toInputXML scenario self w = Ok (calls, w) /\
    Forall (fun c => forall n, elementName_of c = Some n ->
                     recognised n /\ n <> "curveShiftFuelName"%string) calls /\
    filter (fun c => elementName_of c = Some "reduction"%string) calls
    = map reduction_element (getSortedPairs curve).
Proof.
  intros Howns. eexists. split.
  { unfold toInputXML, bind. rewrite (deref_owns _ _ _ Howns). reflexivity. }
  rewrite (writeReductions_map _ empty) by (left; reflexivity).
  pose proof recognised_names as Hnames.
  repeat (apply Forall_cons in Hnames as [? Hnames]).
  split.
  - apply Forall_app. split.
    + repeat (apply Forall_cons; split;
              [intros n Hn; simpl in Hn;
               first [discriminate Hn
                     | injection Hn as <-; split; [assumption | discriminate]]
              |]).
      constructor.
    + apply Forall_app. split; [apply reduction_elements_recognised |].
      apply Forall_cons. split; [intros n Hn; discriminate Hn | constructor].
  - rewrite !filter_app.
    replace (filter _ [WriteClosingTag _]) with (@nil XMLCall) by reflexivity.
    rewrite app_nil_r.
    match goal with
    | |- filter ?P ?pre ++ _ = _ =>
        replace (filter P pre) with (@nil XMLCall) by reflexivity
    end.
    simpl. induction (getSortedPairs curve) as [| p rest IH]; [reflexivity |].
    change (map reduction_element (p :: rest))
      with (reduction_element p :: map reduction_element rest).
    rewrite filter_cons_True by reflexivity.
    f_equal. exact IH.
Qed.

Lemma toInputXML_elements_witness :
  exists calls,
    toInputXML (scenario8 0) mac8 world8 = Ok (calls, world8) /\
    filter (fun c => elementName_of c = Some "reduction"%string) calls
    = [ reduction_element (0, 0);
        reduction_element (of_int 100, Q2Qc (1 # 2));
        reduction_element (of_int 200, Q2Qc (9 # 10)) ].
Proof.
  destruct (toInputXML_elements (scenario8 0) mac8 curve8 world8 mac8_owns)
    as (calls & Hrun & _ & Hred).
  exists calls. split; [exact Hrun | exact Hred].
Defined.

(** * Further properties of the demand calibration *)


Module BuildingExtras.

Import Building BuildingMore.

Lemma dmax_mono_l (a b c : double) : a <= b -> dmax a c <= dmax b c.
Proof.
  intros Hab. unfold dmax.
  destruct (decide (a < c)) as [Hac | Hac], (decide (b < c)) as [Hbc | Hbc].
  - apply Qcle_refl.
  - apply Qcnot_lt_le, Hbc.
  - exfalso. apply Hac. exact (Qcle_lt_trans _ _ _ Hab Hbc).
  - exact Hab.
Qed.

Section Calibration.

Variable scenario : Scenario.
Variable variant : HeatCoolVariant.
Variable self : BuildingHeatCoolDmdTechnology.
Variable regionName : string.
Variable aSubsectorInfo : IInfo.
Variable period : Z.
Variable w : World.

Lemma adjustForCalibration_run (subSectorDemand : double) :
  getDouble aSubsectorInfo "floorSpace" true <> 0 ->
  getDemandFnPrefix self regionName period <> 0 ->
  exists self',
    adjustForCalibration scenario self subSectorDemand regionName
                         aSubsectorInfo period w = Ok (self', w) /\
    shrwts self'
    = dmax (subSectorDemand * getDouble aSubsectorInfo "floorSpace" true
            - getEffectiveInternalGains scenario self regionName period) 0
      / getDouble aSubsectorInfo "floorSpace" true
      / getDemandFnPrefix self regionName period.
Proof.
  intros Hfloor Hprefix. eexists. split.
  - unfold adjustForCalibration, bind, ddiv.
    destruct (decide (getDouble aSubsectorInfo "floorSpace" true = 0));
      [contradiction |].
    unfold ret at 1.
    destruct (decide (getDemandFnPrefix self regionName period = 0));
      [contradiction |].
    reflexivity.
  - reflexivity.
Qed.

End Calibration.

(** X17.  On a positive floor space with a positive demand-function prefix
    the calibrated weight is never negative, and it does not decrease when
    the calibrated unit demand grows. *)
Theorem adjustForCalibration_monotone (scenario : Scenario)
    (variant : HeatCoolVariant) (self : BuildingHeatCoolDmdTechnology)
    (regionName : string) (aSubsectorInfo : IInfo) (period : Z) (w : World)
    (demand1 demand2 : double) :
  0 < getDouble aSubsectorInfo "floorSpace" true ->
  0 < getDemandFnPrefix self regionName period ->
  demand1 <= demand2 ->
  exists self1 self2,
    adjustForCalibration scenario self demand1 regionName aSubsectorInfo
                         period w = Ok (self1, w) /\
    adjustForCalibration scenario self demand2 regionName aSubsectorInfo
                         period w = Ok (self2, w) /\
    0 <= shrwts self1 /\
    shrwts self1 <= shrwts self2.
Proof.
  intros Hfloor Hprefix Hle.
  destruct (adjustForCalibration_run scenario variant self regionName
              aSubsectorInfo period w demand1) as (self1 & Hrun1 & Hw1);
    [apply Qc_pos_neq_0, Hfloor | apply Qc_pos_neq_0, Hprefix |].
  destruct (adjustForCalibration_run scenario variant self regionName
              aSubsectorInfo period w demand2) as (self2 & Hrun2 & Hw2);
    [apply Qc_pos_neq_0, Hfloor | apply Qc_pos_neq_0, Hprefix |].
  exists self1, self2. split; [exact Hrun1 |]. split; [exact Hrun2 |].
  rewrite Hw1, Hw2. split.
  - apply Qcdiv_nonneg; [| exact Hprefix].
    apply Qcdiv_nonneg; [apply dmax_le_r | exact Hfloor].
  - apply Qcdiv_le_mono_pos; [exact Hprefix |].
    apply Qcdiv_le_mono_pos; [exact Hfloor |].
    apply dmax_mono_l. unfold Qcminus. apply Qcplus_le_mono_r.
    apply Qcmult_le_mono_nonneg_r; [apply Qclt_le_weak, Hfloor | exact Hle].
Qed.

Lemma adjustForCalibration_monotone_witness :
  exists self1 self2,
    adjustForCalibration scenario_gains (variant := heating) office_heating 1
                         "USA" office_info 2 world8 = Ok (self1, world8) /\
    adjustForCalibration scenario_gains (variant := heating) office_heating
                         (of_int 2) "USA" office_info 2 world8
      = Ok (self2, world8) /\
    0 <= shrwts self1 /\
    shrwts self1 <= shrwts self2.
Proof.
  apply (adjustForCalibration_monotone scenario_gains heating office_heating
           "USA" office_info 2 world8 1 (of_int 2)).
  - reflexivity.
  - reflexivity.
  - vm_compute. discriminate.
Defined.

(** X18.  A floor space of 0, or a demand-function prefix of 0 on a floor
    space other than 0, makes the calibration divide by zero: no weight is
    stored. *)
Theorem adjustForCalibration_zero_divisor (scenario : Scenario)
    (variant : HeatCoolVariant) (self : BuildingHeatCoolDmdTechnology)
    (subSectorDemand : double) (regionName : string) (aSubsectorInfo : IInfo)
    (period : Z) (w : World) :
  getDouble aSubsectorInfo "floorSpace" true = 0
  \/ getDemandFnPrefix self regionName period = 0 ->
  adjustForCalibration scenario self subSectorDemand regionName
                       aSubsectorInfo period w = Fault NotFinite.
Proof.
  intros Hzero. unfold adjustForCalibration, bind, ddiv.
  destruct (decide (getDouble aSubsectorInfo "floorSpace" true = 0));
    [reflexivity |].
  unfold ret at 1.
  destruct (decide (getDemandFnPrefix self regionName period = 0));
    [reflexivity |].
  destruct Hzero; contradiction.
Qed.

Lemma adjustForCalibration_zero_divisor_witness :
  adjustForCalibration scenario_gains (variant := heating)
                       (BuildingHeatCoolDmdTechnology_new 1) 1 "USA"
                       office_info 2 world8 = Fault NotFinite.
Proof.
  apply (adjustForCalibration_zero_divisor scenario_gains heating).
  right. apply Qc_is_canon. reflexivity.
Defined.



(** X20.  With a sign times active fraction that is not negative (heating)
    a higher price on the internal-gains market never raises the
    calibrated weight. *)
Theorem adjustForCalibration_gains_lower_weight (scenario1 scenario2 : Scenario)
    (variant : HeatCoolVariant) (self : BuildingHeatCoolDmdTechnology)
    (subSectorDemand : double) (regionName : string) (aSubsectorInfo : IInfo)
    (period : Z) (w : World) :
  0 < getDouble aSubsectorInfo "floorSpace" true ->
  0 < getDemandFnPrefix self regionName period ->
  0 <= getInternalGainsSign * fractionOfYearActive self ->
  getPrice (getMarketplace scenario1) (intGainsMarketName self) regionName
           period true
  <= getPrice (getMarketplace scenario2) (intGainsMarketName self) regionName
              period true ->
  exists self1 self2,
    adjustForCalibration scenario1 self subSectorDemand regionName
                         aSubsectorInfo period w = Ok (self1, w) /\
    adjustForCalibration scenario2 self subSectorDemand regionName
                         aSubsectorInfo period w = Ok (self2, w) /\
    shrwts self2 <= shrwts self1.
Proof.
  intros Hfloor Hprefix Hsign Hprice.
  destruct (adjustForCalibration_run scenario1 variant self regionName
              aSubsectorInfo period w subSectorDemand) as (self1 & Hrun1 & Hw1);
    [apply Qc_pos_neq_0, Hfloor | apply Qc_pos_neq_0, Hprefix |].
  destruct (adjustForCalibration_run scenario2 variant self regionName
              aSubsectorInfo period w subSectorDemand) as (self2 & Hrun2 & Hw2);
    [apply Qc_pos_neq_0, Hfloor | apply Qc_pos_neq_0, Hprefix |].
  exists self1, self2. split; [exact Hrun1 |]. split; [exact Hrun2 |].
  rewrite Hw1, Hw2.
  apply Qcdiv_le_mono_pos; [exact Hprefix |].
  apply Qcdiv_le_mono_pos; [exact Hfloor |].
  apply dmax_mono_l. unfold Qcminus. apply Qcplus_le_mono_l.
  apply Qcopp_le_compat. unfold getEffectiveInternalGains.
  set (p1 := getPrice (getMarketplace scenario1) _ _ _ _) in *.
  set (p2 := getPrice (getMarketplace scenario2) _ _ _ _) in *.
  replace (getInternalGainsSign * p1 * fractionOfYearActive self)
    with (getInternalGainsSign * fractionOfYearActive self * p1) by ring.
  replace (getInternalGainsSign * p2 * fractionOfYearActive self)
    with (getInternalGainsSign * fractionOfYearActive self * p2) by ring.
  apply Qcmult_le_mono_nonneg_l; assumption.
Qed.

Lemma adjustForCalibration_gains_lower_weight_witness :
  exists self1 self2,
    adjustForCalibration scenario_gains (variant := heating) office_heating 1
                         "USA" office_info 2 world8 = Ok (self1, world8) /\
    adjustForCalibration scenario_gains_high (variant := heating)
                         office_heating 1 "USA" office_info 2 world8
      = Ok (self2, world8) /\
    shrwts self2 <= shrwts self1.
Proof.
  apply (adjustForCalibration_gains_lower_weight scenario_gains
           scenario_gains_high heating office_heating 1 "USA" office_info 2
           world8).
  - reflexivity.
  - reflexivity.
  - vm_compute. discriminate.
  - vm_compute. discriminate.
Defined.

End BuildingExtras.
